(** * WhisperKey: the JNI binding of the whisper engine (app/src/main/cpp/jni.c)

    The binding exposes five native methods of [com.whisperkey.WhisperEngine]:
    [nativeInit], [nativeRelease], [nativeTranscribe], [nativeIsLoaded] and
    [nativeGetSystemInfo].  The speech engine (whisper.h), the JNI
    environment and the C library are not part of the repository: the engine
    and the allocator are taken as records of functions, and every native
    method is a computation over an explicit world (engine state, the calls
    and log lines issued so far, the borrowed views and heap blocks not yet
    given back).

    Conventions of the model, LP64 (arm64-v8a):
    - a pointer is a [Z] in [0, 2^64), [0] is NULL; [jlong] is a signed
      64-bit [Z]; [size_t] is unsigned 64-bit with its wrap-around written
      out; [jint] and [int] values are carried as [Z], the only arithmetic
      on them being the loop counter below [n_segments];
    - a [const char *] handed out by the engine or by JNI is the list of the
      bytes it points to; the C string it denotes stops before the first
      NUL ([c_str]), the end of the list standing for the terminator;
    - the block returned by [malloc] is a list of exactly the requested
      number of bytes; reading or writing outside it is [Crashed], and so
      is a read of a freed block that the allocator lets fault. *)

From Stdlib Require Import ZArith List String Bool Lia.
From Stdlib Require Import Strings.Byte.
Import ListNotations.
Local Open Scope Z_scope.

(** [length] is the length of a list throughout. *)
Abbreviation length := Datatypes.length.

(** ** Machine integers and casts *)

Definition SIZE_MAX : Z := 2 ^ 64 - 1.

(** Arithmetic on [size_t] is modulo [SIZE_MAX + 1]. *)
Definition size_t_wrap (z : Z) : Z := z mod 2 ^ 64.

Definition is_pointer (p : Z) : Prop := 0 <= p < 2 ^ 64.

(** [(jlong) context]: the pointer's 64 bits read as a signed integer. *)
Definition jlong_of_ptr (p : Z) : Z := (p + 2 ^ 63) mod 2 ^ 64 - 2 ^ 63.

(** [(struct whisper_context * ) context_ptr]. *)
Definition ptr_of_jlong (h : Z) : Z := h mod 2 ^ 64.

Definition jboolean := Z.
Definition JNI_TRUE : jboolean := 1.
Definition JNI_FALSE : jboolean := 0.

(** A [jfloat] is carried as its IEEE-754 binary32 bit pattern; the binding
    never computes on samples, it only hands them to the engine. *)
Definition jfloat := Z.

(** ** C strings and the heap block *)

(** A string literal of the source. *)
Definition lit (s : string) : list byte := list_byte_of_string s.

(** The characters before the first NUL. *)
Fixpoint c_str (m : list byte) : list byte :=
  match m with
  | [] => []
  | c :: m' => if Byte.eqb c x00 then [] else c :: c_str m'
  end.

Definition strlen (m : list byte) : Z := Z.of_nat (length (c_str m)).

(** Does the block hold a NUL at all? *)
Definition terminated (m : list byte) : bool :=
  existsb (fun c => Byte.eqb c x00) m.

(** [strcat(dest, src)] on a heap block [dest]: the characters of [src] and
    a terminator are written over [dest]'s terminator and what follows it.
    [None] when [dest] has no terminator inside the block or the copy runs
    past the block's end. *)
Definition strcat (dest src : list byte) : option (list byte) :=
  let d := c_str dest in
  let s := c_str src in
  let used := (length d + length s + 1)%nat in
  if terminated dest && (used <=? length dest)%nat
  then Some (d ++ s ++ x00 :: skipn used dest)
  else None.

(** [block[0] = '\0']. *)
Definition store_first (block : list byte) (c : byte) : option (list byte) :=
  match block with
  | [] => None
  | _ :: rest => Some (c :: rest)
  end.

(** [*p == ' ' || *p == '\n' || *p == '\t'] *)
Definition is_blank (c : byte) : bool :=
  Byte.eqb c x20 || Byte.eqb c x0a || Byte.eqb c x09.

(** [while ( *trimmed == ' ' || ...) trimmed++;] a pointer into a block is
    the part of the block from the pointer on; [None] when the loop reads
    past the block's end. *)
Fixpoint skip_blanks (p : list byte) : option (list byte) :=
  match p with
  | [] => None
  | c :: p' => if is_blank c then skip_blanks p' else Some p
  end.

(** Reading the C string at a pointer into a heap block stays inside the
    block when a terminator follows the pointer. *)
Definition readable (p : list byte) : bool := terminated p.

(** ** Values crossing the boundary *)

(** A Java string, identified with its modified UTF-8 encoding; [JNull] is
    the null reference. *)
Inductive jstring : Type :=
| JNull
| JString (utf : list byte).

(** [NewStringUTF(env, chars)]; ART answers a NULL [chars] with a null
    reference. *)
Definition NewStringUTF (chars : option (list byte)) : jstring :=
  match chars with
  | None => JNull
  | Some m => JString (c_str m)
  end.


(** ** whisper.h *)

Inductive whisper_sampling_strategy : Type :=
| WHISPER_SAMPLING_GREEDY
| WHISPER_SAMPLING_BEAM_SEARCH.

(** [struct whisper_full_params]: the fields the binding assigns, the
    strategy, and [other_fields] for everything the binding leaves as the
    engine's defaults set it. *)
Record whisper_full_params (rest : Type) : Type := mk_full_params {
  strategy : whisper_sampling_strategy;
  n_threads : Z;
  offset_ms : Z;
  translate : bool;
  no_context : bool;
  single_segment : bool;
  print_special : bool;
  print_progress : bool;
  print_realtime : bool;
  print_timestamps : bool;
  language : list byte;
  suppress_blank : bool;
  suppress_nst : bool;
  other_fields : rest
}.

Arguments mk_full_params {rest}.
Arguments strategy {rest}.
Arguments n_threads {rest}.
Arguments offset_ms {rest}.
Arguments translate {rest}.
Arguments no_context {rest}.
Arguments single_segment {rest}.
Arguments print_special {rest}.
Arguments print_progress {rest}.
Arguments print_realtime {rest}.
Arguments print_timestamps {rest}.
Arguments language {rest}.
Arguments suppress_blank {rest}.
Arguments suppress_nst {rest}.
Arguments other_fields {rest}.

(** The engine, as the binding sees it.  Functions that change the engine
    take and return its state. *)
Record Whisper : Type := {
  engine_state : Type;
  whisper_context_params : Type;
  params_rest : Type;
  whisper_context_default_params : whisper_context_params;
  whisper_init_from_file_with_params :
    list byte -> whisper_context_params -> engine_state -> Z * engine_state;
  whisper_free : Z -> engine_state -> engine_state;
  whisper_full_default_params :
    whisper_sampling_strategy -> whisper_full_params params_rest;
  whisper_reset_timings : Z -> engine_state -> engine_state;
  whisper_full :
    Z -> whisper_full_params params_rest -> list jfloat -> Z ->
    engine_state -> Z * engine_state;
  whisper_full_n_segments : Z -> engine_state -> Z;
  whisper_full_get_segment_text : Z -> Z -> engine_state -> option (list byte);
  whisper_print_system_info : option (list byte)
}.

(** stdlib.h: whether [malloc] of a size succeeds and the indeterminate
    bytes a fresh block holds; and what reading a string through a pointer
    into a freed block does, given the string the block held there when it
    was freed: the read is undefined, it faults ([None]) or yields some
    bytes. *)
Record Libc : Type := {
  malloc : Z -> option (nat -> byte);
  read_after_free : list byte -> option (list byte)
}.

Definition fresh_block (size : Z) (junk : nat -> byte) : list byte :=
  map junk (seq 0 (Z.to_nat size)).

(** ** The world a native method runs in *)

Inductive android_LogPriority : Type :=
| ANDROID_LOG_INFO
| ANDROID_LOG_WARN
| ANDROID_LOG_ERROR.

Inductive log_arg : Type :=
| ArgS (s : list byte)
| ArgD (d : Z).

(** What a call holds until it gives it back. *)
Inductive Resource : Type :=
| StringUTFChars (chars : list byte)
| FloatArrayElements (elems : list jfloat)
| HeapBlock (size : Z).

Definition Resource_eq_dec (a b : Resource) : {a = b} + {a <> b}.
Proof.
  decide equality;
    solve [ apply (list_eq_dec byte_eq_dec)
          | apply (list_eq_dec Z.eq_dec)
          | apply Z.eq_dec ].
Defined.

(** Gives back the first held copy of [r]; [None] when none is held. *)
Fixpoint give_back (r : Resource) (held : list Resource) : option (list Resource) :=
  match held with
  | [] => None
  | r' :: held' =>
      if Resource_eq_dec r r' then Some held'
      else option_map (cons r') (give_back r held')
  end.

Section Binding.

Variable W : Whisper.
Variable L : Libc.

Definition full_params : Type := whisper_full_params (params_rest W).

(** The calls that reach the log or change the engine, in program order;
    queries that leave the engine as it is ([whisper_full_n_segments],
    [whisper_full_get_segment_text], the default parameters, the system
    info) are not recorded. *)
Inductive Event : Type :=
| android_log_print (prio : android_LogPriority) (fmt : string) (args : list log_arg)
| call_init_from_file (path : list byte) (cparams : whisper_context_params W)
| call_free (ctx : Z)
| call_reset_timings (ctx : Z)
| call_full (ctx : Z) (params : full_params) (samples : list jfloat) (n_samples : Z).

Record World : Type := mk_world {
  engine : engine_state W;
  events : list Event;
  held : list Resource
}.

Inductive Outcome (A : Type) : Type :=
| Returned (a : A) (w : World)
| Crashed (w : World).

Arguments Returned {A}.
Arguments Crashed {A}.

Definition JNI (A : Type) : Type := World -> Outcome A.

Definition ret {A : Type} (a : A) : JNI A := fun w => Returned a w.

Definition bind {A B : Type} (m : JNI A) (k : A -> JNI B) : JNI B :=
  fun w =>
    match m w with
    | Returned a w' => k a w'
    | Crashed w' => Crashed w'
    end.

Definition crash {A : Type} : JNI A := fun w => Crashed w.

Definition emit (e : Event) : JNI unit :=
  fun w => Returned tt (mk_world (engine w) (events w ++ [e]) (held w)).

Definition acquire (r : Resource) : JNI unit :=
  fun w => Returned tt (mk_world (engine w) (events w) (r :: held w)).

Definition release (r : Resource) : JNI unit :=
  fun w =>
    match give_back r (held w) with
    | Some held' => Returned tt (mk_world (engine w) (events w) held')
    | None => Crashed w
    end.

(** Runs an engine function on the engine's state. *)
Definition on_engine {A : Type} (f : engine_state W -> A * engine_state W) : JNI A :=
  fun w =>
    let r := f (engine w) in
    Returned (fst r) (mk_world (snd r) (events w) (held w)).

Definition ask_engine {A : Type} (f : engine_state W -> A) : JNI A :=
  fun w => Returned (f (engine w)) w.

Definition unwrap {A : Type} (o : option A) : JNI A :=
  match o with
  | Some a => ret a
  | None => crash
  end.

Notation "x <- m ;; k" := (bind m (fun x => k))
  (at level 61, m at next level, right associativity).
Notation "m ;; k" := (bind m (fun _ => k))
  (at level 61, right associativity).

(** *** android/log.h *)

Definition LOGI (fmt : string) (args : list log_arg) : JNI unit :=
  emit (android_log_print ANDROID_LOG_INFO fmt args).

Definition LOGE (fmt : string) (args : list log_arg) : JNI unit :=
  emit (android_log_print ANDROID_LOG_ERROR fmt args).

(** *** jni.h *)

Definition JNI_ABORT : Z := 2.

(** A null [jstring] aborts the runtime. *)
Definition GetStringUTFChars (s : jstring) : JNI (list byte) :=
  match s with
  | JNull => crash
  | JString u => acquire (StringUTFChars u) ;; ret u
  end.

Definition ReleaseStringUTFChars (s : jstring) (chars : list byte) : JNI unit :=
  release (StringUTFChars chars).

Definition GetFloatArrayElements (array : list jfloat) : JNI (list jfloat) :=
  acquire (FloatArrayElements array) ;; ret array.

Definition GetArrayLength (array : list jfloat) : Z := Z.of_nat (length array).

Definition ReleaseFloatArrayElements
    (array elems : list jfloat) (mode : Z) : JNI unit :=
  release (FloatArrayElements elems).

(** *** stdlib.h *)

Definition c_malloc (size : Z) : JNI (option (list byte)) :=
  match malloc L size with
  | None => ret None
  | Some junk => acquire (HeapBlock size) ;; ret (Some (fresh_block size junk))
  end.

Definition c_free (size : Z) : JNI unit := release (HeapBlock size).

(** ** The native methods *)

(** [Java_com_whisperkey_WhisperEngine_nativeInit] *)
Definition nativeInit (model_path_str : jstring) : JNI Z :=
  model_path <- GetStringUTFChars model_path_str ;;
  LOGI "Loading whisper model from: %s" [ArgS model_path] ;;
  let cparams := whisper_context_default_params W in
  emit (call_init_from_file model_path cparams) ;;
  context <- on_engine (whisper_init_from_file_with_params W model_path cparams) ;;
  ReleaseStringUTFChars model_path_str model_path ;;
  if context =? 0 then
    LOGE "Failed to load whisper model" [] ;;
    ret 0
  else
    LOGI "Whisper model loaded successfully" [] ;;
    ret (jlong_of_ptr context).

(** [Java_com_whisperkey_WhisperEngine_nativeRelease] *)
Definition nativeRelease (context_ptr : Z) : JNI unit :=
  if context_ptr =? 0 then
    ret tt
  else
    let context := ptr_of_jlong context_ptr in
    emit (call_free context) ;;
    on_engine (fun e => (tt, whisper_free W context e)) ;;
    LOGI "Whisper context released" [].

(** The parameter block of [nativeTranscribe]: the engine's greedy defaults
    with twelve fields assigned. *)
Definition transcribe_params (num_threads : Z) : full_params :=
  let params := whisper_full_default_params W WHISPER_SAMPLING_GREEDY in
  {| strategy := strategy params;
     n_threads := num_threads;
     offset_ms := 0;
     translate := false;
     no_context := true;
     single_segment := true;
     print_special := false;
     print_progress := false;
     print_realtime := false;
     print_timestamps := false;
     language := lit "en";
     suppress_blank := true;
     suppress_nst := true;
     other_fields := other_fields params |}.

(** [for (int i = 0; i < n_segments; i++) if (text != NULL) total_len +=
    strlen(text);] with [count] iterations left and [i < n_segments <=
    INT_MAX], so that [i++] never overflows. *)
Fixpoint length_pass (context : Z) (e : engine_state W)
    (count : nat) (i : Z) (total_len : Z) : Z :=
  match count with
  | O => total_len
  | S count' =>
      let total_len' :=
        match whisper_full_get_segment_text W context i e with
        | Some text => size_t_wrap (total_len + strlen text)
        | None => total_len
        end in
      length_pass context e count' (i + 1) total_len'
  end.

(** [for (int i = 0; i < n_segments; i++) if (text != NULL)
    strcat(full_text, text);] *)
Fixpoint concat_pass (context : Z) (e : engine_state W)
    (count : nat) (i : Z) (full_text : list byte) : option (list byte) :=
  match count with
  | O => Some full_text
  | S count' =>
      match whisper_full_get_segment_text W context i e with
      | Some text =>
          match strcat full_text text with
          | Some full_text' => concat_pass context e count' (i + 1) full_text'
          | None => None
          end
      | None => concat_pass context e count' (i + 1) full_text
      end
  end.

(** [Java_com_whisperkey_WhisperEngine_nativeTranscribe].  The last log
    line reads [trimmed] after [free(full_text)]: the call goes on only if
    that read does not fault, and prints what the read yields. *)
Definition nativeTranscribe
    (context_ptr : Z) (audio_data : list jfloat) (num_threads : Z) : JNI jstring :=
  if context_ptr =? 0 then
    LOGE "Transcribe called with null context" [] ;;
    ret (NewStringUTF (Some (lit "")))
  else
    let context := ptr_of_jlong context_ptr in
    audio_data_arr <- GetFloatArrayElements audio_data ;;
    let audio_data_length := GetArrayLength audio_data in
    LOGI "Transcribing %d samples with %d threads"
         [ArgD audio_data_length; ArgD num_threads] ;;
    let params := transcribe_params num_threads in
    emit (call_reset_timings context) ;;
    on_engine (fun e => (tt, whisper_reset_timings W context e)) ;;
    emit (call_full context params audio_data_arr audio_data_length) ;;
    result <- on_engine (whisper_full W context params audio_data_arr audio_data_length) ;;
    ReleaseFloatArrayElements audio_data audio_data_arr JNI_ABORT ;;
    if negb (result =? 0) then
      LOGE "Transcription failed with code: %d" [ArgD result] ;;
      ret (NewStringUTF (Some (lit "")))
    else
      n_segments <- ask_engine (whisper_full_n_segments W context) ;;
      LOGI "Transcription complete: %d segments" [ArgD n_segments] ;;
      total_len <- ask_engine (fun e =>
        length_pass context e (Z.to_nat n_segments) 0 0) ;;
      let size := size_t_wrap (total_len + 1) in
      full_text <- c_malloc size ;;
      match full_text with
      | None =>
          LOGE "Failed to allocate memory for transcription result" [] ;;
          ret (NewStringUTF (Some (lit "")))
      | Some block =>
          block <- unwrap (store_first block x00) ;;
          written <- ask_engine (fun e =>
            concat_pass context e (Z.to_nat n_segments) 0 block) ;;
          block <- unwrap written ;;
          trimmed <- unwrap (skip_blanks block) ;;
          (if readable trimmed then ret tt else crash) ;;
          let jresult := NewStringUTF (Some trimmed) in
          c_free size ;;
          stale <- unwrap (read_after_free L (c_str trimmed)) ;;
          LOGI "Transcription result: %s" [ArgS stale] ;;
          ret jresult
      end.

(** [Java_com_whisperkey_WhisperEngine_nativeIsLoaded] *)
Definition nativeIsLoaded (context_ptr : Z) : JNI jboolean :=
  ret (if negb (context_ptr =? 0) then JNI_TRUE else JNI_FALSE).


End Binding.

Arguments Returned {W A}.
Arguments Crashed {W A}.
Arguments mk_world {W}.
Arguments engine {W}.
Arguments events {W}.
Arguments held {W}.

(** ** What the statements below speak about *)

(** The texts [whisper_full_get_segment_text] yields at [i], [i + 1], ...,
    [count] of them: what either loop of [nativeTranscribe] reads. *)
Fixpoint texts_from (W : Whisper) (context : Z) (e : engine_state W)
    (count : nat) (i : Z) : list (option (list byte)) :=
  match count with
  | O => []
  | S count' =>
      whisper_full_get_segment_text W context i e
        :: texts_from W context e count' (i + 1)
  end.

(** The segments the engine holds for a context, in segment order. *)
Definition segment_texts (W : Whisper) (context : Z) (e : engine_state W)
    : list (option (list byte)) :=
  texts_from W context e (Z.to_nat (whisper_full_n_segments W context e)) 0.

(** The characters of one segment text; a NULL text has none. *)
Definition text_of (text : option (list byte)) : list byte :=
  match text with
  | Some m => c_str m
  | None => []
  end.

(** The texts one after the other, nothing in between. *)
Definition concatenation (texts : list (option (list byte))) : list byte :=
  List.concat (map text_of texts).

(** The string without its leading spaces, newlines and tabs. *)
Fixpoint strip_leading (s : list byte) : list byte :=
  match s with
  | [] => []
  | c :: s' => if is_blank c then strip_leading s' else s
  end.

(** The status and the engine state [whisper_full] leaves when
    [nativeTranscribe] runs from world [w]. *)
Definition inference (W : Whisper) (w : World W)
    (context_ptr : Z) (audio_data : list jfloat) (num_threads : Z)
    : Z * engine_state W :=
  let context := ptr_of_jlong context_ptr in
  whisper_full W context (transcribe_params W num_threads) audio_data
    (GetArrayLength audio_data)
    (whisper_reset_timings W context (engine w)).

(** The texts of the segments the inference leaves, one after the other. *)
Definition transcript (W : Whisper) (w : World W)
    (context_ptr : Z) (audio_data : list jfloat) (num_threads : Z) : list byte :=
  concatenation
    (segment_texts W (ptr_of_jlong context_ptr)
       (snd (inference W w context_ptr audio_data num_threads))).

(** The size [nativeTranscribe] asks [malloc] for in engine state [e]. *)
Definition buffer_size (W : Whisper) (context : Z) (e : engine_state W) : Z :=
  size_t_wrap
    (length_pass W context e
       (Z.to_nat (whisper_full_n_segments W context e)) 0 0 + 1).

(** What every [nativeTranscribe] on a non-zero handle issues first: its
    first log line, the timing reset and the inference call. *)
Definition inference_events (W : Whisper)
    (context_ptr : Z) (audio_data : list jfloat) (num_threads : Z)
    : list (Event W) :=
  let context := ptr_of_jlong context_ptr in
  [ android_log_print W ANDROID_LOG_INFO
      "Transcribing %d samples with %d threads"
      [ArgD (GetArrayLength audio_data); ArgD num_threads];
    call_reset_timings W context;
    call_full W context (transcribe_params W num_threads) audio_data
      (GetArrayLength audio_data) ].

(** The pointer and the engine state a model load from world [w] yields. *)
Definition load (W : Whisper) (w : World W) (path : list byte)
    : Z * engine_state W :=
  whisper_init_from_file_with_params W path
    (whisper_context_default_params W) (engine w).

(** What [nativeInit] logs and calls. *)
Definition load_events (W : Whisper) (w : World W) (path : list byte)
    : list (Event W) :=
  [ android_log_print W ANDROID_LOG_INFO "Loading whisper model from: %s"
      [ArgS path];
    call_init_from_file W path (whisper_context_default_params W);
    if fst (load W w path) =? 0
    then android_log_print W ANDROID_LOG_ERROR "Failed to load whisper model" []
    else android_log_print W ANDROID_LOG_INFO "Whisper model loaded successfully" [] ].

(** The world after the engine instance behind a handle has been freed. *)
Definition released (W : Whisper) (context_ptr : Z) (w : World W) : World W :=
  mk_world (whisper_free W (ptr_of_jlong context_ptr) (engine w))
    (events w ++ [ call_free W (ptr_of_jlong context_ptr);
                   android_log_print W ANDROID_LOG_INFO
                     "Whisper context released" [] ])
    (held w).

(** The world an outcome ends in. *)
Definition world_of {W : Whisper} {A : Type} (o : Outcome W A) : World W :=
  match o with
  | Returned _ w => w
  | Crashed w => w
  end.

Definition is_engine_call {W : Whisper} (ev : Event W) : bool :=
  match ev with
  | android_log_print _ _ _ _ => false
  | _ => true
  end.

(** The calls into the engine among the events. *)
Definition engine_calls {W : Whisper} (evs : list (Event W)) : list (Event W) :=
  filter is_engine_call evs.

(** ** A scripted engine and two allocators, to run the binding on *)

(** An engine whose model load yields [addr] for a non-empty path, whose
    inference ends with [status] and, on status 0, leaves the segments
    [segs]; its state is the segments of the last run. *)
Definition scripted (addr status : Z) (segs : list (option (list byte))) : Whisper :=
  {| engine_state := list (option (list byte));
     whisper_context_params := unit;
     params_rest := unit;
     whisper_context_default_params := tt;
     whisper_init_from_file_with_params := fun path _ st =>
       match path with
       | [] => (0, st)
       | _ :: _ => (addr, [])
       end;
     whisper_free := fun _ _ => [];
     whisper_full_default_params := fun s =>
       {| strategy := s; n_threads := 4; offset_ms := 0;
          translate := false; no_context := true; single_segment := false;
          print_special := false; print_progress := true;
          print_realtime := false; print_timestamps := true;
          language := lit "en";
          suppress_blank := true; suppress_nst := false;
          other_fields := tt |};
     whisper_reset_timings := fun _ st => st;
     whisper_full := fun _ _ _ _ _ =>
       (status, if status =? 0 then segs else []);
     whisper_full_n_segments := fun _ st => Z.of_nat (length st);
     whisper_full_get_segment_text := fun _ i st =>
       if i <? 0 then None else nth (Z.to_nat i) st None;
     whisper_print_system_info := Some (lit "WHISPER : NEON = 1 | ARM_FMA = 1 | ") |}.

(** An allocator that always has memory; fresh blocks hold [0xaa], freed
    blocks stay readable with their bytes as they were. *)
Definition libc_ok : Libc :=
  {| malloc := fun _ => Some (fun _ => xaa);
     read_after_free := fun m => Some m |}.

(** An allocator that is out of memory. *)
Definition libc_oom : Libc :=
  {| malloc := fun _ => None;
     read_after_free := fun m => Some m |}.

(** An allocator that always has memory and gives freed blocks back to the
    system: a read of a freed block faults. *)
Definition libc_unmapping : Libc :=
  {| malloc := fun _ => Some (fun _ => xaa);
     read_after_free := fun _ => None |}.

Definition empty_world (W : Whisper) (e : engine_state W) : World W :=
  mk_world e [] [].

(** Three segments of the scripted engine: a tab and [" hello"], a NULL
    text, and [" world "] with a newline after it. *)
Definition three_segments : list (option (list byte)) :=
  [Some (x09 :: lit " hello"); None; Some (lit " world " ++ [x0a])].

(** The scripted engine in four situations: three segments, a failing
    inference, no segment at all, and a context allocated in the upper half
    of the address space. *)
Definition demo : Whisper := scripted 4096 0 three_segments.
Definition demo_failing : Whisper := scripted 4096 (-6) three_segments.
Definition demo_silent : Whisper := scripted 4096 0 [].
Definition demo_high : Whisper := scripted (2 ^ 63 + 4096) 0 [].


(** Three samples: 0.0f, 1.0f and -1.0f. *)
Definition demo_samples : list jfloat := [0; 1065353216; 3212836864].

Definition demo_path : list byte := lit "/data/user/0/com.whisperkey/files/ggml-tiny.en.bin".

(** ** C strings *)

Lemma terminated_app (a b : list byte) :
  terminated (a ++ b) = terminated a || terminated b.
Proof. unfold terminated. apply existsb_app. Qed.

Lemma terminated_c_str (m : list byte) : terminated (c_str m) = false.
Proof.
  induction m as [|c m IH]; cbn; [reflexivity|].
  destruct (Byte.eqb c x00) eqn:Hc; cbn; [reflexivity|].
  now rewrite Hc.
Qed.

Lemma c_str_before_nul (a r : list byte) :
  terminated a = false -> c_str (a ++ x00 :: r) = a.
Proof.
  induction a as [|c a IH]; cbn; intros H; [reflexivity|].
  apply orb_false_iff in H as [Hc Ha].
  rewrite Hc. f_equal. now apply IH.
Qed.

Lemma terminated_with_nul (a r : list byte) : terminated (a ++ x00 :: r) = true.
Proof.
  rewrite terminated_app. cbn. apply orb_true_r.
Qed.

Lemma terminated_strip_leading (s : list byte) :
  terminated s = false -> terminated (strip_leading s) = false.
Proof.
  induction s as [|c s IH]; cbn; intros H; [reflexivity|].
  apply orb_false_iff in H as [Hc Hs].
  destruct (is_blank c); [now apply IH|].
  cbn. now rewrite Hc, Hs.
Qed.

Lemma terminated_concatenation (texts : list (option (list byte))) :
  terminated (concatenation texts) = false.
Proof.
  unfold concatenation.
  induction texts as [|t texts IH]; cbn; [reflexivity|].
  rewrite terminated_app, IH, orb_false_r.
  destruct t; cbn; [apply terminated_c_str | reflexivity].
Qed.

(** The pointer loop on a terminated block does what [strip_leading] does
    on the characters before the terminator. *)
Lemma skip_blanks_before_nul (a r : list byte) :
  terminated a = false ->
  skip_blanks (a ++ x00 :: r) = Some (strip_leading a ++ x00 :: r).
Proof.
  induction a as [|c a IH]; cbn; intros H; [reflexivity|].
  apply orb_false_iff in H as [Hc Ha].
  destruct (is_blank c); [now apply IH | reflexivity].
Qed.

(** The characters [strip_leading] drops are blanks, the first it keeps is
    not, and everything after it is kept as it stands. *)
Lemma strip_leading_split (s : list byte) :
  exists lead,
    s = lead ++ strip_leading s /\
    forallb is_blank lead = true /\
    match strip_leading s with
    | [] => True
    | c :: _ => is_blank c = false
    end.
Proof.
  induction s as [|c s (lead & Hs & Hl & Hh)]; cbn.
  - exists []. repeat split; reflexivity.
  - destruct (is_blank c) eqn:Hc.
    + exists (c :: lead). cbn. rewrite Hc, Hl. repeat split; auto.
      now f_equal.
    + exists []. repeat split; auto.
Qed.

Lemma strcat_at_terminator (a r src : list byte) :
  terminated a = false ->
  (length (c_str src) <= length r)%nat ->
  strcat (a ++ x00 :: r) src =
  Some ((a ++ c_str src) ++ x00 :: skipn (length (c_str src)) r).
Proof.
  intros Ha Hfit. unfold strcat.
  rewrite terminated_with_nul, (c_str_before_nul a r Ha).
  rewrite length_app. cbn [length andb].
  replace (length a + length (c_str src) + 1 <=? length a + S (length r))%nat
    with true by (symmetry; apply Nat.leb_le; lia).
  f_equal. rewrite <- app_assoc. do 3 f_equal.
  replace (length a + length (c_str src) + 1)%nat
    with (length a + S (length (c_str src)))%nat by lia.
  rewrite skipn_app, skipn_all2 by lia.
  replace (length a + S (length (c_str src)) - length a)%nat
    with (S (length (c_str src))) by lia.
  reflexivity.
Qed.

Lemma give_back_head (r : Resource) (l : list Resource) :
  give_back r (r :: l) = Some l.
Proof.
  cbn. destruct (Resource_eq_dec r r) as [_|Hne]; [reflexivity|].
  now destruct Hne.
Qed.

(** ** Proof steps shared by the lemmas below *)

Ltac run_step :=
  cbv beta iota delta
    [bind ret emit acquire release on_engine ask_engine LOGI LOGE
     GetFloatArrayElements ReleaseFloatArrayElements GetStringUTFChars
     ReleaseStringUTFChars c_malloc c_free unwrap crash];
  cbn [engine events held fst snd];
  rewrite ?give_back_head.

Ltac run := repeat progress run_step.

Ltac tidy_events := repeat rewrite <- app_assoc; cbn [app].

(** The segments "hello" and " world" read "hello world" before trimming. *)
Example concatenation_hello_world :
  concatenation [Some (lit "hello"); Some (lit " world")] = lit "hello world".
Proof. reflexivity. Qed.

(** ** The two passes over the segments *)

Section Passes.

Variable W : Whisper.
Variable context : Z.
Variable e : engine_state W.

Lemma concatenation_cons (t : option (list byte)) (ts : list (option (list byte))) :
  concatenation (t :: ts) = text_of t ++ concatenation ts.
Proof. reflexivity. Qed.

(** Without wrap-around the first pass counts the characters of the
    concatenation. *)
Lemma length_pass_exact (count : nat) : forall (i acc : Z),
  0 <= acc ->
  acc + Z.of_nat (length (concatenation (texts_from W context e count i))) <= SIZE_MAX ->
  length_pass W context e count i acc =
  acc + Z.of_nat (length (concatenation (texts_from W context e count i))).
Proof.
  unfold SIZE_MAX.
  induction count as [|count IH]; intros i acc Hacc Hfit; cbn [length_pass texts_from] in *.
  - cbn. lia.
  - rewrite concatenation_cons, length_app, Nat2Z.inj_add in *.
    destruct (whisper_full_get_segment_text W context i e) as [text|]; cbn [text_of] in *.
    + unfold size_t_wrap, strlen. rewrite Z.mod_small by lia.
      rewrite IH by lia. lia.
    + cbn [length] in *. rewrite IH by lia. lia.
Qed.

(** On a block with room for it the second pass writes the concatenation
    and one terminator, and never leaves the block. *)
Lemma concat_pass_exact (count : nat) : forall (i : Z) (a r : list byte),
  terminated a = false ->
  (length (concatenation (texts_from W context e count i)) <= length r)%nat ->
  concat_pass W context e count i (a ++ x00 :: r) =
  Some ((a ++ concatenation (texts_from W context e count i))
          ++ x00 :: skipn (length (concatenation (texts_from W context e count i))) r).
Proof.
  induction count as [|count IH]; intros i a r Ha Hfit; cbn [concat_pass texts_from] in *.
  - cbn. now rewrite app_nil_r.
  - rewrite concatenation_cons in *. rewrite length_app in *.
    destruct (whisper_full_get_segment_text W context i e) as [text|]; cbn [text_of] in *.
    + rewrite strcat_at_terminator by (auto; lia).
      rewrite IH.
      * rewrite skipn_skipn, (Nat.add_comm (length (c_str text))).
        now rewrite !app_assoc.
      * rewrite terminated_app, Ha. apply terminated_c_str.
      * rewrite length_skipn. lia.
    + cbn [length app Nat.add] in *. now apply IH.
Qed.

End Passes.

(** ** The paths through [nativeTranscribe] *)

Section Paths.

Variable W : Whisper.
Variable L : Libc.

Lemma transcribe_null_handle (samples : list jfloat) (n : Z) (w : World W) :
  nativeTranscribe W L 0 samples n w =
  Returned (JString [])
    (mk_world (engine w)
       (events w ++ [android_log_print W ANDROID_LOG_ERROR
                       "Transcribe called with null context" []])
       (held w)).
Proof. reflexivity. Qed.

Lemma transcribe_inference_failed
    (h : Z) (samples : list jfloat) (n : Z) (w : World W) :
  h <> 0 ->
  fst (inference W w h samples n) <> 0 ->
  nativeTranscribe W L h samples n w =
  Returned (JString [])
    (mk_world (snd (inference W w h samples n))
       (events w ++ inference_events W h samples n
          ++ [android_log_print W ANDROID_LOG_ERROR
                "Transcription failed with code: %d"
                [ArgD (fst (inference W w h samples n))]])
       (held w)).
Proof.
  intros Hh Hr. unfold nativeTranscribe, inference, inference_events in *.
  apply Z.eqb_neq in Hh. rewrite Hh.
  apply Z.eqb_neq in Hr.
  run. rewrite Hr. cbn [negb]. run. tidy_events. reflexivity.
Qed.

Lemma transcribe_out_of_memory
    (h : Z) (samples : list jfloat) (n : Z) (w : World W) :
  h <> 0 ->
  fst (inference W w h samples n) = 0 ->
  malloc L (buffer_size W (ptr_of_jlong h) (snd (inference W w h samples n))) = None ->
  nativeTranscribe W L h samples n w =
  Returned (JString [])
    (mk_world (snd (inference W w h samples n))
       (events w ++ inference_events W h samples n
          ++ [android_log_print W ANDROID_LOG_INFO
                "Transcription complete: %d segments"
                [ArgD (whisper_full_n_segments W (ptr_of_jlong h)
                         (snd (inference W w h samples n)))];
              android_log_print W ANDROID_LOG_ERROR
                "Failed to allocate memory for transcription result" []])
       (held w)).
Proof.
  intros Hh Hr Hm.
  unfold nativeTranscribe, inference, inference_events, buffer_size in *.
  apply Z.eqb_neq in Hh. rewrite Hh.
  apply Z.eqb_eq in Hr.
  run. rewrite Hr. cbn [negb]. run. rewrite Hm. run.
  tidy_events. reflexivity.
Qed.

(** When the characters and a terminator fit a [size_t] the size asked of
    [malloc] is their number. *)
Lemma buffer_size_exact (context : Z) (e : engine_state W) :
  Z.of_nat (length (concatenation (segment_texts W context e))) + 1 <= SIZE_MAX ->
  buffer_size W context e =
  Z.of_nat (length (concatenation (segment_texts W context e))) + 1.
Proof.
  intros Hfit. unfold buffer_size, segment_texts in *.
  rewrite length_pass_exact by lia.
  unfold size_t_wrap, SIZE_MAX in *. apply Z.mod_small. lia.
Qed.

Lemma transcribe_success
    (h : Z) (samples : list jfloat) (n : Z) (w : World W) (junk : nat -> byte) :
  h <> 0 ->
  fst (inference W w h samples n) = 0 ->
  Z.of_nat (length (concatenation
    (segment_texts W (ptr_of_jlong h) (snd (inference W w h samples n))))) + 1
    <= SIZE_MAX ->
  malloc L (buffer_size W (ptr_of_jlong h) (snd (inference W w h samples n)))
    = Some junk ->
  nativeTranscribe W L h samples n w =
  match
    read_after_free L (strip_leading (concatenation
      (segment_texts W (ptr_of_jlong h) (snd (inference W w h samples n)))))
  with
  | Some stale =>
      Returned
        (JString (strip_leading (concatenation
           (segment_texts W (ptr_of_jlong h) (snd (inference W w h samples n))))))
        (mk_world (snd (inference W w h samples n))
           (events w ++ inference_events W h samples n
              ++ [android_log_print W ANDROID_LOG_INFO
                    "Transcription complete: %d segments"
                    [ArgD (whisper_full_n_segments W (ptr_of_jlong h)
                             (snd (inference W w h samples n)))];
                  android_log_print W ANDROID_LOG_INFO
                    "Transcription result: %s" [ArgS stale]])
           (held w))
  | None =>
      Crashed
        (mk_world (snd (inference W w h samples n))
           (events w ++ inference_events W h samples n
              ++ [android_log_print W ANDROID_LOG_INFO
                    "Transcription complete: %d segments"
                    [ArgD (whisper_full_n_segments W (ptr_of_jlong h)
                             (snd (inference W w h samples n)))]])
           (held w))
  end.
Proof.
  intros Hh Hr Hfit Hm.
  pose proof (buffer_size_exact _ _ Hfit) as Hsize.
  rewrite Hsize in Hm.
  unfold nativeTranscribe, inference_events.
  apply Z.eqb_neq in Hh. rewrite Hh.
  apply Z.eqb_eq in Hr.
  run.
  change (whisper_full W (ptr_of_jlong h) (transcribe_params W n) samples
            (GetArrayLength samples)
            (whisper_reset_timings W (ptr_of_jlong h) (engine w)))
    with (inference W w h samples n).
  rewrite Hr. cbn [negb]. run.
  set (e1 := snd (inference W w h samples n)) in *.
  change (size_t_wrap (length_pass W (ptr_of_jlong h) e1
            (Z.to_nat (whisper_full_n_segments W (ptr_of_jlong h) e1)) 0 0 + 1))
    with (buffer_size W (ptr_of_jlong h) e1).
  rewrite Hsize, Hm. run.
  set (text := concatenation (segment_texts W (ptr_of_jlong h) e1)) in *.
  unfold fresh_block.
  replace (Z.to_nat (Z.of_nat (length text) + 1)) with (S (length text)) by lia.
  cbn [seq map store_first]. run.
  change (texts_from W (ptr_of_jlong h) e1
            (Z.to_nat (whisper_full_n_segments W (ptr_of_jlong h) e1)) 0)
    with (segment_texts W (ptr_of_jlong h) e1) in *.
  pose proof (concat_pass_exact W (ptr_of_jlong h) e1
                (Z.to_nat (whisper_full_n_segments W (ptr_of_jlong h) e1)) 0
                [] (map junk (seq 1 (length text))) eq_refl) as Hpass.
  fold (segment_texts W (ptr_of_jlong h) e1) in Hpass. fold text in Hpass.
  cbn [app] in Hpass. rewrite Hpass by (rewrite length_map, length_seq; lia).
  run.
  rewrite skipn_all2 by (rewrite length_map, length_seq; lia).
  assert (Ht : terminated text = false) by apply terminated_concatenation.
  rewrite skip_blanks_before_nul by exact Ht.
  unfold readable. rewrite terminated_with_nul. run.
  rewrite c_str_before_nul by (now apply terminated_strip_leading).
  destruct (read_after_free L (strip_leading text)) as [stale|]; run.
  - unfold NewStringUTF.
    rewrite c_str_before_nul by (now apply terminated_strip_leading).
    tidy_events. reflexivity.
  - tidy_events. reflexivity.
Qed.

(** Every path returns, holding what the call started with, once the read
    of the freed block does not fault. *)
Lemma transcribe_returns
    (h : Z) (samples : list jfloat) (n : Z) (w : World W) :
  Z.of_nat (length (transcript W w h samples n)) + 1 <= SIZE_MAX ->
  read_after_free L (strip_leading (transcript W w h samples n)) <> None ->
  exists (text : jstring) (w' : World W),
    nativeTranscribe W L h samples n w = Returned text w' /\ held w' = held w.
Proof.
  intros Hfit Hstale.
  destruct (Z.eq_dec h 0) as [->|Hh].
  { do 2 eexists. rewrite transcribe_null_handle. split; reflexivity. }
  destruct (Z.eq_dec (fst (inference W w h samples n)) 0) as [Hr|Hr].
  2:{ do 2 eexists. rewrite (transcribe_inference_failed h samples n w Hh Hr).
      split; reflexivity. }
  destruct (malloc L (buffer_size W (ptr_of_jlong h)
              (snd (inference W w h samples n)))) as [junk|] eqn:Hm.
  - unfold transcript in *.
    rewrite (transcribe_success h samples n w junk Hh Hr Hfit Hm).
    destruct (read_after_free L _) as [stale|]; [|contradiction].
    do 2 eexists. split; reflexivity.
  - do 2 eexists. rewrite (transcribe_out_of_memory h samples n w Hh Hr Hm).
    split; reflexivity.
Qed.

(** Returning or faulting at the read of the freed block, the call ends
    holding what it started with. *)
Lemma transcribe_ends_holding_nothing_more
    (h : Z) (samples : list jfloat) (n : Z) (w : World W) :
  Z.of_nat (length (transcript W w h samples n)) + 1 <= SIZE_MAX ->
  held (world_of (nativeTranscribe W L h samples n w)) = held w.
Proof.
  intros Hfit.
  destruct (Z.eq_dec h 0) as [->|Hh].
  { rewrite transcribe_null_handle. reflexivity. }
  destruct (Z.eq_dec (fst (inference W w h samples n)) 0) as [Hr|Hr].
  2:{ rewrite (transcribe_inference_failed h samples n w Hh Hr). reflexivity. }
  destruct (malloc L (buffer_size W (ptr_of_jlong h)
              (snd (inference W w h samples n)))) as [junk|] eqn:Hm.
  - unfold transcript in *.
    rewrite (transcribe_success h samples n w junk Hh Hr Hfit Hm).
    destruct (read_after_free L _); reflexivity.
  - rewrite (transcribe_out_of_memory h samples n w Hh Hr Hm). reflexivity.
Qed.

End Paths.

(** ** The other native methods *)

Section Methods.

Variable W : Whisper.

Lemma jlong_of_ptr_zero_iff (p : Z) : is_pointer p -> (jlong_of_ptr p = 0 <-> p = 0).
Proof.
  unfold is_pointer, jlong_of_ptr. intros Hp. split; [|intros ->; reflexivity].
  intros H.
  destruct (Z_lt_le_dec p (2 ^ 63)) as [Hlo|Hhi].
  - rewrite Z.mod_small in H by lia. lia.
  - replace (p + 2 ^ 63) with (p - 2 ^ 63 + 1 * 2 ^ 64) in H by lia.
    rewrite Z.mod_add, Z.mod_small in H by lia. lia.
Qed.

(** The handle keeps all 64 bits of the pointer. *)
Lemma ptr_of_jlong_of_ptr (p : Z) : is_pointer p -> ptr_of_jlong (jlong_of_ptr p) = p.
Proof.
  unfold is_pointer, jlong_of_ptr, ptr_of_jlong. intros Hp.
  destruct (Z_lt_le_dec p (2 ^ 63)) as [Hlo|Hhi].
  - rewrite (Z.mod_small (p + 2 ^ 63)) by lia.
    replace (p + 2 ^ 63 - 2 ^ 63) with p by lia. apply Z.mod_small. lia.
  - replace (p + 2 ^ 63) with (p - 2 ^ 63 + 1 * 2 ^ 64) by lia.
    rewrite Z.mod_add, (Z.mod_small (p - 2 ^ 63)) by lia.
    replace (p - 2 ^ 63 - 2 ^ 63) with (p + (-1) * 2 ^ 64) by lia.
    rewrite Z.mod_add by lia. apply Z.mod_small. lia.
Qed.

Lemma init_run (path : list byte) (w : World W) :
  nativeInit W (JString path) w =
  Returned (jlong_of_ptr (fst (load W w path)))
    (mk_world (snd (load W w path))
       (events w ++ load_events W w path)
       (held w)).
Proof.
  unfold nativeInit, load_events, load. run.
  destruct (fst _ =? 0) eqn:Hp; run; tidy_events.
  - apply Z.eqb_eq in Hp. rewrite Hp. reflexivity.
  - reflexivity.
Qed.

Lemma release_run (h : Z) (w : World W) :
  nativeRelease W h w = Returned tt (if h =? 0 then w else released W h w).
Proof.
  unfold nativeRelease, released.
  destruct (h =? 0); run; tidy_events; reflexivity.
Qed.

End Methods.

(** ** Whatever the outcome: the calls [nativeTranscribe] makes *)

Section Calls.

Variable W : Whisper.
Variable L : Libc.

Lemma engine_calls_app (a b : list (Event W)) :
  engine_calls (a ++ b) = engine_calls a ++ engine_calls b.
Proof. apply filter_app. Qed.

(** On a non-zero handle every outcome, normal or not, has issued the
    inference events first and only log lines after them, and leaves the
    engine as the inference left it. *)
Lemma transcribe_outcome_events
    (h : Z) (samples : list jfloat) (n : Z) (w : World W) :
  h <> 0 ->
  exists tail,
    events (world_of (nativeTranscribe W L h samples n w)) =
      events w ++ inference_events W h samples n ++ tail /\
    engine_calls tail = [] /\
    engine (world_of (nativeTranscribe W L h samples n w)) =
      snd (inference W w h samples n).
Proof.
  intros Hh. unfold nativeTranscribe, inference_events, inference.
  apply Z.eqb_neq in Hh. rewrite Hh. run.
  destruct (negb _); run.
  { eexists. tidy_events. repeat split. }
  destruct (malloc L _); run.
  2:{ eexists. tidy_events. repeat split. }
  destruct (store_first _ _); run.
  2:{ eexists. tidy_events. repeat split. }
  destruct (concat_pass _ _ _ _ _ _); run.
  2:{ eexists. tidy_events. repeat split. }
  destruct (skip_blanks _); run.
  2:{ eexists. tidy_events. repeat split. }
  destruct (readable _); run.
  2:{ eexists. tidy_events. repeat split. }
  destruct (read_after_free L _); run.
  2:{ eexists. tidy_events. repeat split. }
  eexists. tidy_events. repeat split.
Qed.

(** Wherever [nativeTranscribe] returns, it holds what it held on entry. *)
Lemma transcribe_return_points
    (h : Z) (samples : list jfloat) (n : Z) (w : World W)
    (text : jstring) (w' : World W) :
  nativeTranscribe W L h samples n w = Returned text w' -> held w' = held w.
Proof.
  unfold nativeTranscribe.
  destruct (h =? 0); run.
  { intros [= _ <-]. reflexivity. }
  destruct (negb _); run.
  { intros [= _ <-]. reflexivity. }
  destruct (malloc L _); run.
  2:{ intros [= _ <-]. reflexivity. }
  destruct (store_first _ _); run; [|discriminate].
  destruct (concat_pass _ _ _ _ _ _); run; [|discriminate].
  destruct (skip_blanks _); run; [|discriminate].
  destruct (readable _); run; [|discriminate].
  destruct (read_after_free L _); run; [|discriminate].
  intros [= _ <-]. reflexivity.
Qed.

End Calls.

(** ** The claims *)

(** C1, as amended.  On a non-zero handle, when the engine reports success
    and [malloc] yields the concatenation buffer (the characters and their
    terminator fitting a [size_t], as strings resident in one address space
    do), [nativeTranscribe] returns, once the read of the freed buffer
    for its last log line does not fault, the segment texts one after the
    other in segment order with nothing in between, without the leading
    spaces, newlines and tabs: what is dropped is a run of such characters,
    what follows starts with another character, and everything after it,
    trailing blanks included, is returned as it stands.  What the call does
    when that read faults is left open here. *)
Theorem transcribe_returns_stripped_concatenation
    (W : Whisper) (L : Libc) (h : Z) (samples : list jfloat) (n : Z)
    (w : World W) (junk : nat -> byte) (stale : list byte) :
  h <> 0 ->
  fst (inference W w h samples n) = 0 ->
  malloc L (buffer_size W (ptr_of_jlong h) (snd (inference W w h samples n)))
    = Some junk ->
  Z.of_nat (length (transcript W w h samples n)) + 1 <= SIZE_MAX ->
  read_after_free L (strip_leading (transcript W w h samples n)) = Some stale ->
  exists (w' : World W) (lead : list byte),
    nativeTranscribe W L h samples n w =
      Returned (JString (strip_leading (transcript W w h samples n))) w' /\
    transcript W w h samples n = lead ++ strip_leading (transcript W w h samples n) /\
    forallb is_blank lead = true /\
    match strip_leading (transcript W w h samples n) with
    | [] => True
    | c :: _ => is_blank c = false
    end.
Proof.
  intros Hh Hr Hm Hfit Hstale.
  destruct (strip_leading_split (transcript W w h samples n)) as (lead & Hs & Hl & Hc).
  eexists. exists lead. split; [|now repeat split].
  unfold transcript in *.
  rewrite (transcribe_success W L h samples n w junk Hh Hr Hfit Hm), Hstale.
  reflexivity.
Qed.

Lemma transcribe_returns_stripped_concatenation_witness :
  exists (w' : World demo) (lead : list byte),
    nativeTranscribe demo libc_ok 4096 demo_samples 2 (empty_world demo []) =
      Returned
        (JString (strip_leading
           (transcript demo (empty_world demo []) 4096 demo_samples 2))) w' /\
    transcript demo (empty_world demo []) 4096 demo_samples 2 =
      lead ++ strip_leading (transcript demo (empty_world demo []) 4096 demo_samples 2) /\
    forallb is_blank lead = true /\
    match strip_leading (transcript demo (empty_world demo []) 4096 demo_samples 2) with
    | [] => True
    | c :: _ => is_blank c = false
    end.
Proof.
  apply (transcribe_returns_stripped_concatenation
           demo libc_ok 4096 demo_samples 2 (empty_world demo []) (fun _ => xaa)
           (lit "hello world " ++ [x0a])).
  - discriminate.
  - reflexivity.
  - reflexivity.
  - vm_compute. discriminate.
  - reflexivity.
Defined.

(** C1 as stated fails: the engine reports success on a non-zero handle
    and the segments read "\t hello", NULL, " world \n", but [malloc] has no
    memory, and [nativeTranscribe] returns the empty string, not
    "hello world \n". *)
Lemma transcribe_empty_when_allocation_fails :
  4096 <> 0 /\
  fst (inference demo (empty_world demo []) 4096 demo_samples 2) = 0 /\
  (exists w',
     nativeTranscribe demo libc_oom 4096 demo_samples 2 (empty_world demo []) =
       Returned (JString []) w') /\
  strip_leading (transcript demo (empty_world demo []) 4096 demo_samples 2) =
    lit "hello world " ++ [x0a].
Proof.
  split; [discriminate|]. split; [reflexivity|]. split; [|reflexivity].
  eexists. vm_compute. reflexivity.
Qed.

(** C2.  With handle 0, for every sample buffer and thread count,
    [nativeTranscribe] returns normally with the empty string (a string, not
    a null reference); all it does besides is write one error line to the
    log: the engine is not called and its state, like the set of borrowed
    views, is as before. *)
Theorem transcribe_null_handle_returns_empty
    (W : Whisper) (L : Libc) (samples : list jfloat) (n : Z) (w : World W) :
  exists w' : World W,
    nativeTranscribe W L 0 samples n w = Returned (JString []) w' /\
    events w' =
      events w ++ [android_log_print W ANDROID_LOG_ERROR
                     "Transcribe called with null context" []] /\
    engine w' = engine w /\
    held w' = held w.
Proof.
  eexists. rewrite transcribe_null_handle. repeat split.
Qed.

(** C3.  On a non-zero handle, when the inference status is not 0 or
    [malloc] fails for the concatenation buffer, [nativeTranscribe] returns
    normally with the empty string, its last log line being an error line;
    a run with status 0 whose text is empty once stripped, when it gets
    past the read of the freed buffer for its last log line, returns the
    same value, so the return value does not tell the two apart. *)
Theorem transcribe_failures_return_empty
    (W : Whisper) (L : Libc) (h : Z) (samples : list jfloat) (n : Z) (w : World W) :
  h <> 0 ->
  (fst (inference W w h samples n) <> 0 \/
   malloc L (buffer_size W (ptr_of_jlong h) (snd (inference W w h samples n))) = None ->
   exists w' : World W,
     nativeTranscribe W L h samples n w = Returned (JString []) w' /\
     held w' = held w /\
     exists fmt args,
       last (events w') (call_free W 0) =
       android_log_print W ANDROID_LOG_ERROR fmt args) /\
  (fst (inference W w h samples n) = 0 ->
   (exists junk,
      malloc L (buffer_size W (ptr_of_jlong h) (snd (inference W w h samples n)))
      = Some junk) ->
   Z.of_nat (length (transcript W w h samples n)) + 1 <= SIZE_MAX ->
   strip_leading (transcript W w h samples n) = [] ->
   read_after_free L (strip_leading (transcript W w h samples n)) <> None ->
   exists w' : World W,
     nativeTranscribe W L h samples n w = Returned (JString []) w').
Proof.
  intros Hh. split.
  - intros Hfail.
    destruct (Z.eq_dec (fst (inference W w h samples n)) 0) as [Hr|Hr].
    + destruct Hfail as [Hne|Hm]; [contradiction|].
      eexists. rewrite (transcribe_out_of_memory W L h samples n w Hh Hr Hm).
      split; [reflexivity|]. split; [reflexivity|].
      do 2 eexists. cbn [events]. rewrite !app_assoc.
      match goal with
      | |- last (?l ++ [?a; ?b]) _ = _ =>
          change (l ++ [a; b]) with (l ++ [a] ++ [b])
      end.
      rewrite app_assoc. apply last_last.
    + eexists. rewrite (transcribe_inference_failed W L h samples n w Hh Hr).
      split; [reflexivity|]. split; [reflexivity|].
      do 2 eexists. cbn [events]. rewrite !app_assoc. apply last_last.
  - intros Hr [junk Hm] Hfit Hempty Hstale. unfold transcript in *.
    rewrite (transcribe_success W L h samples n w junk Hh Hr Hfit Hm).
    destruct (read_after_free L _) as [stale|]; [|contradiction].
    eexists. rewrite Hempty. reflexivity.
Qed.

Lemma transcribe_failures_return_empty_witness :
  (exists w',
     nativeTranscribe demo_failing libc_ok 4096 demo_samples 2
       (empty_world demo_failing []) = Returned (JString []) w') /\
  (exists w',
     nativeTranscribe demo libc_oom 4096 demo_samples 2
       (empty_world demo []) = Returned (JString []) w') /\
  (exists w',
     nativeTranscribe demo_silent libc_ok 4096 demo_samples 2
       (empty_world demo_silent []) = Returned (JString []) w').
Proof.
  split; [|split].
  - destruct (transcribe_failures_return_empty demo_failing libc_ok 4096
                demo_samples 2 (empty_world demo_failing []))
      as [Hfail _]; [discriminate|].
    destruct Hfail as (w' & Hrun & _); [left; discriminate|].
    now exists w'.
  - destruct (transcribe_failures_return_empty demo libc_oom 4096
                demo_samples 2 (empty_world demo []))
      as [Hfail _]; [discriminate|].
    destruct Hfail as (w' & Hrun & _); [right; reflexivity|].
    now exists w'.
  - destruct (transcribe_failures_return_empty demo_silent libc_ok 4096
                demo_samples 2 (empty_world demo_silent []))
      as [_ Hsilent]; [discriminate|].
    apply Hsilent.
    + reflexivity.
    + eexists. reflexivity.
    + vm_compute. discriminate.
    + reflexivity.
    + discriminate.
Defined.

(** C4.  For every model path, [nativeInit] returns normally; the handle
    it returns is 0 exactly when the engine's load yields the null pointer,
    and otherwise it is non-zero and casts back to the pointer the engine
    returned.  Nothing stays borrowed. *)
Theorem init_returns_zero_iff_load_fails
    (W : Whisper) (path : list byte) (w : World W) :
  is_pointer (fst (load W w path)) ->
  exists (handle : Z) (w' : World W),
    nativeInit W (JString path) w = Returned handle w' /\
    (handle = 0 <-> fst (load W w path) = 0) /\
    ptr_of_jlong handle = fst (load W w path) /\
    engine w' = snd (load W w path) /\
    held w' = held w.
Proof.
  intros Hp. do 2 eexists. rewrite init_run. cbn [engine held].
  split; [reflexivity|].
  split; [now apply jlong_of_ptr_zero_iff|].
  split; [now apply ptr_of_jlong_of_ptr|].
  split; reflexivity.
Qed.

Lemma init_returns_zero_iff_load_fails_witness :
  exists (handle : Z) (w' : World demo_high),
    nativeInit demo_high (JString demo_path) (empty_world demo_high []) =
      Returned handle w' /\
    (handle = 0 <-> fst (load demo_high (empty_world demo_high []) demo_path) = 0) /\
    ptr_of_jlong handle = fst (load demo_high (empty_world demo_high []) demo_path) /\
    engine w' = snd (load demo_high (empty_world demo_high []) demo_path) /\
    held w' = held (empty_world demo_high []).
Proof.
  apply (init_returns_zero_iff_load_fails demo_high demo_path (empty_world demo_high [])).
  unfold is_pointer. vm_compute. split; [discriminate | reflexivity].
Defined.

(** C5.  [nativeIsLoaded] answers from the handle alone: the answer is the
    same in every world and leaves the world as it is; it is JNI_TRUE
    exactly when the handle is not 0 and JNI_FALSE exactly when it is 0,
    and it is still the same answer in the world [nativeRelease] of that
    handle leaves. *)
Theorem isLoaded_iff_nonzero (W : Whisper) (h : Z) :
  exists b : jboolean,
    (forall w : World W, nativeIsLoaded W h w = Returned b w) /\
    (b = JNI_TRUE <-> h <> 0) /\
    (b = JNI_FALSE <-> h = 0) /\
    (forall w : World W, exists w' : World W,
       nativeRelease W h w = Returned tt w' /\
       nativeIsLoaded W h w' = Returned b w').
Proof.
  unfold nativeIsLoaded, ret.
  exists (if negb (h =? 0) then JNI_TRUE else JNI_FALSE).
  split; [reflexivity|].
  destruct (Z.eqb_spec h 0) as [->|Hne]; cbn [negb]; unfold JNI_TRUE, JNI_FALSE.
  - split; [split; [discriminate | intros H; now destruct H]|].
    split; [split; reflexivity|].
    intros w. eexists. split; [apply release_run | reflexivity].
  - split; [split; [now intros _ | reflexivity]|].
    split; [split; [discriminate | intros H; now destruct Hne]|].
    intros w. eexists. split; [apply release_run | reflexivity].
Qed.

(** C6.  [nativeRelease] returns normally on every handle.  On 0 it leaves
    the world as it is; on any other handle it calls [whisper_free], once,
    on the pointer the handle casts to, which leaves the engine in the state
    [whisper_free] gives, and it holds nothing afterwards that was not held
    before. *)
Theorem release_frees_engine_or_does_nothing
    (W : Whisper) (h : Z) (w : World W) :
  nativeRelease W 0 w = Returned tt w /\
  nativeRelease W h w = Returned tt (if h =? 0 then w else released W h w) /\
  engine (released W h w) = whisper_free W (ptr_of_jlong h) (engine w) /\
  engine_calls (skipn (length (events w)) (events (released W h w))) =
    [call_free W (ptr_of_jlong h)] /\
  held (released W h w) = held w.
Proof.
  split; [reflexivity|]. split; [apply release_run|].
  split; [reflexivity|]. split; [|reflexivity].
  unfold released. cbn [events].
  rewrite skipn_app, skipn_all, Nat.sub_diag. reflexivity.
Qed.

(** C7.  On every call with a non-zero handle [nativeTranscribe] calls the
    engine exactly twice, whatever the outcome: [whisper_reset_timings],
    then [whisper_full], once, on the whole sample array with its length,
    and with the engine state the reset left.  The parameter block passed is
    the engine's defaults for the greedy strategy with language "en",
    translation, special, progress, realtime and timestamp printing off, no
    context, single segment, blank and non-speech suppression on, offset 0
    and the caller's thread count; no other field of the defaults is
    touched. *)
Theorem transcribe_runs_inference_once
    (W : Whisper) (L : Libc) (h : Z) (samples : list jfloat) (n : Z) (w : World W) :
  h <> 0 ->
  engine_calls
    (skipn (length (events w))
       (events (world_of (nativeTranscribe W L h samples n w)))) =
    [ call_reset_timings W (ptr_of_jlong h);
      call_full W (ptr_of_jlong h) (transcribe_params W n) samples
        (Z.of_nat (length samples)) ] /\
  engine (world_of (nativeTranscribe W L h samples n w)) =
    snd (whisper_full W (ptr_of_jlong h) (transcribe_params W n) samples
           (Z.of_nat (length samples))
           (whisper_reset_timings W (ptr_of_jlong h) (engine w))) /\
  transcribe_params W n =
    {| strategy := strategy (whisper_full_default_params W WHISPER_SAMPLING_GREEDY);
       n_threads := n;
       offset_ms := 0;
       translate := false;
       no_context := true;
       single_segment := true;
       print_special := false;
       print_progress := false;
       print_realtime := false;
       print_timestamps := false;
       language := [x65; x6e];
       suppress_blank := true;
       suppress_nst := true;
       other_fields :=
         other_fields (whisper_full_default_params W WHISPER_SAMPLING_GREEDY) |}.
Proof.
  intros Hh.
  destruct (transcribe_outcome_events W L h samples n w Hh) as (tail & Hev & Htail & Heng).
  split; [|split; [exact Heng | reflexivity]].
  rewrite Hev, skipn_app, skipn_all, Nat.sub_diag. cbn [skipn app].
  rewrite engine_calls_app, Htail. reflexivity.
Qed.

Lemma transcribe_runs_inference_once_witness :
  engine_calls
    (skipn (length (events (empty_world demo [])))
       (events (world_of
          (nativeTranscribe demo libc_ok 4096 demo_samples 2 (empty_world demo []))))) =
    [ call_reset_timings demo (ptr_of_jlong 4096);
      call_full demo (ptr_of_jlong 4096) (transcribe_params demo 2) demo_samples
        (Z.of_nat (length demo_samples)) ] /\
  engine (world_of
    (nativeTranscribe demo libc_ok 4096 demo_samples 2 (empty_world demo []))) =
    snd (whisper_full demo (ptr_of_jlong 4096) (transcribe_params demo 2) demo_samples
           (Z.of_nat (length demo_samples))
           (whisper_reset_timings demo (ptr_of_jlong 4096)
              (engine (empty_world demo [])))) /\
  transcribe_params demo 2 =
    {| strategy := strategy (whisper_full_default_params demo WHISPER_SAMPLING_GREEDY);
       n_threads := 2;
       offset_ms := 0;
       translate := false;
       no_context := true;
       single_segment := true;
       print_special := false;
       print_progress := false;
       print_realtime := false;
       print_timestamps := false;
       language := [x65; x6e];
       suppress_blank := true;
       suppress_nst := true;
       other_fields :=
         other_fields (whisper_full_default_params demo WHISPER_SAMPLING_GREEDY) |}.
Proof.
  apply (transcribe_runs_inference_once demo libc_ok 4096 demo_samples 2
           (empty_world demo [])).
  discriminate.
Defined.

(** C8.  [nativeInit] returns holding exactly what was held when it was
    called, the string characters given back; wherever [nativeTranscribe]
    returns (null handle, inference failure, allocation failure, success),
    it holds exactly what was held when it was called, the array elements
    and the heap block given back.  With the text and its terminator
    fitting a [size_t], [nativeTranscribe] ends holding exactly that even
    when the read of the freed buffer for its last log line faults, and it
    returns when that read does not fault.  A call that starts with nothing
    outstanding ends with nothing outstanding. *)
Theorem borrowed_views_released
    (W : Whisper) (L : Libc) (path : list byte)
    (h : Z) (samples : list jfloat) (n : Z) (w : World W) :
  (exists (handle : Z) (w' : World W),
     nativeInit W (JString path) w = Returned handle w' /\ held w' = held w) /\
  (forall (text : jstring) (w' : World W),
     nativeTranscribe W L h samples n w = Returned text w' -> held w' = held w) /\
  (Z.of_nat (length (transcript W w h samples n)) + 1 <= SIZE_MAX ->
   held (world_of (nativeTranscribe W L h samples n w)) = held w) /\
  (Z.of_nat (length (transcript W w h samples n)) + 1 <= SIZE_MAX ->
   read_after_free L (strip_leading (transcript W w h samples n)) <> None ->
   exists (text : jstring) (w' : World W),
     nativeTranscribe W L h samples n w = Returned text w').
Proof.
  split; [|split; [|split]].
  - do 2 eexists. rewrite init_run. split; reflexivity.
  - apply transcribe_return_points.
  - apply transcribe_ends_holding_nothing_more.
  - intros Hfit Hstale.
    destruct (transcribe_returns W L h samples n w Hfit Hstale)
      as (text & w' & Hrun & _).
    now exists text, w'.
Qed.

Lemma borrowed_views_released_witness :
  (exists (handle : Z) (w' : World demo),
     nativeInit demo (JString []) (empty_world demo []) = Returned handle w' /\
     held w' = []) /\
  (exists (text : jstring) (w' : World demo),
     nativeTranscribe demo libc_ok 4096 demo_samples 2 (empty_world demo []) =
       Returned text w' /\
     held w' = []) /\
  (exists (text : jstring) (w' : World demo_failing),
     nativeTranscribe demo_failing libc_ok 4096 demo_samples 2
       (empty_world demo_failing []) = Returned text w' /\
     held w' = []) /\
  (exists (text : jstring) (w' : World demo),
     nativeTranscribe demo libc_oom 4096 demo_samples 2 (empty_world demo []) =
       Returned text w' /\
     held w' = []) /\
  held (world_of
          (nativeTranscribe demo libc_unmapping 4096 demo_samples 2
             (empty_world demo []))) = [].
Proof.
  split; [|split; [|split; [|split]]].
  - destruct (borrowed_views_released demo libc_ok [] 4096 demo_samples 2
                (empty_world demo [])) as [Hinit _].
    exact Hinit.
  - destruct (borrowed_views_released demo libc_ok [] 4096 demo_samples 2
                (empty_world demo [])) as (_ & Hheld & _ & Hruns).
    destruct Hruns as (text & w' & Hrun);
      [vm_compute; discriminate | discriminate |].
    exists text, w'. split; [exact Hrun | exact (Hheld text w' Hrun)].
  - destruct (borrowed_views_released demo_failing libc_ok [] 4096 demo_samples 2
                (empty_world demo_failing [])) as (_ & Hheld & _ & Hruns).
    destruct Hruns as (text & w' & Hrun);
      [vm_compute; discriminate | discriminate |].
    exists text, w'. split; [exact Hrun | exact (Hheld text w' Hrun)].
  - destruct (borrowed_views_released demo libc_oom [] 4096 demo_samples 2
                (empty_world demo [])) as (_ & Hheld & _ & Hruns).
    destruct Hruns as (text & w' & Hrun);
      [vm_compute; discriminate | discriminate |].
    exists text, w'. split; [exact Hrun | exact (Hheld text w' Hrun)].
  - destruct (borrowed_views_released demo libc_unmapping [] 4096 demo_samples 2
                (empty_world demo [])) as (_ & _ & Hends & _).
    apply Hends. vm_compute. discriminate.
Defined.



(** C10.  For the segments the inference leaves (their characters and a
    terminator fitting a [size_t]): the first pass computes the number of
    characters of the concatenation in which a NULL text stands for no
    character; the second pass, on a fresh block of that size plus one
    whose first byte is NUL, stays inside the block and leaves exactly that
    concatenation and its terminator; at an index whose text is NULL either
    pass goes on to the next index with its total, or its block, as it is,
    and a NULL text anywhere in the sequence adds nothing to the
    concatenation; and [nativeTranscribe] returns, NULL texts or not, when
    the read of the freed buffer for its last log line does not fault. *)
Theorem null_texts_skipped_in_both_passes
    (W : Whisper) (L : Libc) (h : Z) (samples : list jfloat) (n : Z) (w : World W) :
  let context := ptr_of_jlong h in
  let e := snd (inference W w h samples n) in
  let count := Z.to_nat (whisper_full_n_segments W context e) in
  Z.of_nat (length (transcript W w h samples n)) + 1 <= SIZE_MAX ->
  length_pass W context e count 0 0 = Z.of_nat (length (transcript W w h samples n)) /\
  (forall junk : nat -> byte,
     exists block,
       store_first (fresh_block (buffer_size W context e) junk) x00 = Some block /\
       length block = S (length (transcript W w h samples n)) /\
       concat_pass W context e count 0 block =
         Some (transcript W w h samples n ++ [x00])) /\
  (forall (k : nat) (i total_len : Z) (block : list byte),
     whisper_full_get_segment_text W context i e = None ->
     length_pass W context e (S k) i total_len =
       length_pass W context e k (i + 1) total_len /\
     concat_pass W context e (S k) i block =
       concat_pass W context e k (i + 1) block) /\
  (forall pre post : list (option (list byte)),
     concatenation (pre ++ None :: post) = concatenation (pre ++ post)) /\
  (read_after_free L (strip_leading (transcript W w h samples n)) <> None ->
   exists (text : jstring) (w' : World W),
     nativeTranscribe W L h samples n w = Returned text w').
Proof.
  intros context e count Hfit. unfold transcript in *. fold context e in Hfit |- *.
  split; [|split; [|split; [|split]]].
  - unfold segment_texts in *. fold count in Hfit |- *.
    rewrite length_pass_exact by lia. reflexivity.
  - intros junk. rewrite (buffer_size_exact W context e Hfit).
    unfold fresh_block.
    replace (Z.to_nat (Z.of_nat (length (concatenation (segment_texts W context e))) + 1))
      with (S (length (concatenation (segment_texts W context e)))) by lia.
    cbn [seq map store_first]. eexists. split; [reflexivity|].
    split; [cbn [length]; now rewrite length_map, length_seq|].
    pose proof (concat_pass_exact W context e count 0 []
                  (map junk (seq 1 (length (concatenation (segment_texts W context e)))))
                  eq_refl) as Hpass.
    unfold segment_texts in *. fold count in Hpass |- *. cbn [app] in Hpass.
    rewrite Hpass by (rewrite length_map, length_seq; lia).
    rewrite skipn_all2 by (rewrite length_map, length_seq; lia).
    reflexivity.
  - intros k i total_len block Hnull. cbn [length_pass concat_pass].
    rewrite Hnull. split; reflexivity.
  - intros pre post. unfold concatenation.
    rewrite !map_app, !concat_app. reflexivity.
  - intros Hstale.
    destruct (transcribe_returns W L h samples n w Hfit Hstale)
      as (text & w' & Hrun & _).
    now exists text, w'.
Qed.

Lemma null_texts_skipped_in_both_passes_witness :
  length_pass demo (ptr_of_jlong 4096)
    (snd (inference demo (empty_world demo []) 4096 demo_samples 2))
    (Z.to_nat (whisper_full_n_segments demo (ptr_of_jlong 4096)
       (snd (inference demo (empty_world demo []) 4096 demo_samples 2)))) 0 0 =
    Z.of_nat (length (transcript demo (empty_world demo []) 4096 demo_samples 2)) /\
  (forall junk : nat -> byte,
     exists block,
       store_first
         (fresh_block
            (buffer_size demo (ptr_of_jlong 4096)
               (snd (inference demo (empty_world demo []) 4096 demo_samples 2)))
            junk) x00 = Some block /\
       length block =
         S (length (transcript demo (empty_world demo []) 4096 demo_samples 2)) /\
       concat_pass demo (ptr_of_jlong 4096)
         (snd (inference demo (empty_world demo []) 4096 demo_samples 2))
         (Z.to_nat (whisper_full_n_segments demo (ptr_of_jlong 4096)
            (snd (inference demo (empty_world demo []) 4096 demo_samples 2))))
         0 block =
         Some (transcript demo (empty_world demo []) 4096 demo_samples 2 ++ [x00])) /\
  (forall (k : nat) (i total_len : Z) (block : list byte),
     whisper_full_get_segment_text demo (ptr_of_jlong 4096) i
       (snd (inference demo (empty_world demo []) 4096 demo_samples 2)) = None ->
     length_pass demo (ptr_of_jlong 4096)
       (snd (inference demo (empty_world demo []) 4096 demo_samples 2))
       (S k) i total_len =
       length_pass demo (ptr_of_jlong 4096)
         (snd (inference demo (empty_world demo []) 4096 demo_samples 2))
         k (i + 1) total_len /\
     concat_pass demo (ptr_of_jlong 4096)
       (snd (inference demo (empty_world demo []) 4096 demo_samples 2))
       (S k) i block =
       concat_pass demo (ptr_of_jlong 4096)
         (snd (inference demo (empty_world demo []) 4096 demo_samples 2))
         k (i + 1) block) /\
  (forall pre post : list (option (list byte)),
     concatenation (pre ++ None :: post) = concatenation (pre ++ post)) /\
  (exists (text : jstring) (w' : World demo),
     nativeTranscribe demo libc_ok 4096 demo_samples 2 (empty_world demo []) =
       Returned text w').
Proof.
  destruct (null_texts_skipped_in_both_passes demo libc_ok 4096 demo_samples 2
              (empty_world demo []))
    as (Hlen & Hcat & Hskip & Hnull & Hruns); [vm_compute; discriminate|].
  split; [exact Hlen|]. split; [exact Hcat|]. split; [exact Hskip|].
  split; [exact Hnull|].
  apply Hruns. discriminate.
Defined.

(** * Further properties of the binding

    ** What they speak about *)

(** The events a run from [w] to [w'] added. *)
Definition new_events {W : Whisper} (w w' : World W) : list (Event W) :=
  skipn (length (events w)) (events w').

Definition is_error_line {W : Whisper} (ev : Event W) : bool :=
  match ev with
  | android_log_print _ ANDROID_LOG_ERROR _ _ => true
  | _ => false
  end.

(** Is there a LOGE line among the events? *)
Definition logs_error {W : Whisper} (evs : list (Event W)) : bool :=
  existsb is_error_line evs.

(** A heap block for the trimming loop: a space, a tab, a newline, "hi ",
    the terminator, and two bytes of what the block held before. *)
Definition demo_block : list byte :=
  [x20; x09; x0a] ++ lit "hi " ++ [x00; xaa; xaa].

(** The scripted engine hearing nothing but blanks: a space and a newline,
    a NULL text, a tab. *)
Definition demo_blank : Whisper :=
  scripted 4096 0 [Some [x20; x0a]; None; Some [x09]].

(** ** Helper lemmas *)

Lemma new_events_app {W : Whisper} (w : World W) (e : engine_state W)
    (evs : list (Event W)) (hs : list Resource) :
  new_events w (mk_world e (events w ++ evs) hs) = evs.
Proof.
  unfold new_events. cbn [events].
  rewrite skipn_app, skipn_all, Nat.sub_diag. reflexivity.
Qed.

Lemma blank_is_not_nul (c : byte) : is_blank c = true -> Byte.eqb c x00 = false.
Proof.
  intros Hb. destruct (Byte.eqb c x00) eqn:Hc; [|reflexivity].
  apply byte_dec_bl in Hc. subst c. discriminate Hb.
Qed.

(** Where the trimming loop stops there is a character, and it is no
    blank. *)
Lemma skip_blanks_stops_at_nonblank (p q : list byte) :
  skip_blanks p = Some q ->
  exists c rest, q = c :: rest /\ is_blank c = false.
Proof.
  induction p as [|c p IH]; cbn; [discriminate|].
  destruct (is_blank c) eqn:Hc; [exact IH|].
  intros [= <-]. now exists c, p.
Qed.

Lemma strip_leading_nil_iff (s : list byte) :
  strip_leading s = [] <-> forallb is_blank s = true.
Proof.
  induction s as [|c s IH]; cbn; [tauto|].
  destruct (is_blank c); cbn; [exact IH|].
  split; discriminate.
Qed.

Lemma engine_calls_load_events (W : Whisper) (w : World W) (path : list byte) :
  engine_calls (load_events W w path) =
  [call_init_from_file W path (whisper_context_default_params W)].
Proof.
  unfold load_events, engine_calls. cbn.
  destruct (fst (load W w path) =? 0); reflexivity.
Qed.

Lemma logs_error_load_events (W : Whisper) (w : World W) (path : list byte) :
  logs_error (load_events W w path) = (fst (load W w path) =? 0).
Proof.
  unfold load_events, logs_error. cbn.
  destruct (fst (load W w path) =? 0); reflexivity.
Qed.

(** A block too small for the text and its terminator makes the second
    pass write past its end. *)
Lemma concat_pass_overflows (W : Whisper) (context : Z) (e : engine_state W)
    (count : nat) : forall (i : Z) (a r : list byte),
  terminated a = false ->
  (length r < length (concatenation (texts_from W context e count i)))%nat ->
  concat_pass W context e count i (a ++ x00 :: r) = None.
Proof.
  induction count as [|count IH]; intros i a r Ha Hsmall;
    cbn [concat_pass texts_from] in *.
  - cbn in Hsmall. lia.
  - rewrite concatenation_cons, length_app in Hsmall.
    destruct (whisper_full_get_segment_text W context i e) as [text|];
      cbn [text_of] in *.
    + destruct (Nat.le_gt_cases (length (c_str text)) (length r)) as [Hfit|Hbig].
      * rewrite strcat_at_terminator by assumption.
        apply IH.
        -- rewrite terminated_app, Ha. apply terminated_c_str.
        -- rewrite length_skipn. lia.
      * unfold strcat.
        rewrite terminated_with_nul, (c_str_before_nul a r Ha), length_app.
        cbn [length andb].
        replace (length a + length (c_str text) + 1 <=? length a + S (length r))%nat
          with false by (symmetry; apply Nat.leb_gt; lia).
        reflexivity.
    + cbn [length Nat.add] in Hsmall. now apply IH.
Qed.

(** ** The trimming loop *)

(** X1.  On any block that holds a terminator the trimming loop of
    [nativeTranscribe] never reads past the terminator: it stops at a
    pointer inside the block, what it stepped over is spaces, newlines and
    tabs only, a terminator still follows the pointer, and the string read
    there is the block's string without its leading blanks. *)
Theorem trim_loop_stays_in_block (p : list byte) :
  terminated p = true ->
  exists lead q : list byte,
    skip_blanks p = Some q /\
    p = lead ++ q /\
    forallb is_blank lead = true /\
    readable q = true /\
    c_str q = strip_leading (c_str p).
Proof.
  unfold readable.
  induction p as [|c p IH]; cbn; [discriminate|].
  intros Hterm.
  destruct (is_blank c) eqn:Hblank.
  - rewrite (blank_is_not_nul c Hblank) in *. cbn in Hterm.
    destruct (IH Hterm) as (lead & q & Hskip & Hsplit & Hlead & Hq & Hstr).
    exists (c :: lead), q. cbn. rewrite Hblank, Hlead.
    repeat split; auto. now f_equal.
  - exists [], (c :: p). cbn.
    destruct (Byte.eqb c x00) eqn:Hnul; cbn; [now repeat split|].
    rewrite Hblank. now repeat split.
Qed.

Lemma trim_loop_stays_in_block_witness :
  exists lead q : list byte,
    skip_blanks demo_block = Some q /\
    demo_block = lead ++ q /\
    forallb is_blank lead = true /\
    readable q = true /\
    c_str q = strip_leading (c_str demo_block).
Proof.
  apply (trim_loop_stays_in_block demo_block). reflexivity.
Defined.

(** ** What [nativeTranscribe] hands back *)

(** X2.  At every return point of [nativeTranscribe], on any handle, engine
    and allocator, the value is a Java string, never the null reference; it
    holds no NUL, and its first character, if it has one, is no space,
    newline or tab. *)
Theorem transcribe_result_is_trimmed_string
    (W : Whisper) (L : Libc) (h : Z) (samples : list jfloat) (n : Z)
    (w w' : World W) (text : jstring) :
  nativeTranscribe W L h samples n w = Returned text w' ->
  exists utf : list byte,
    text = JString utf /\
    terminated utf = false /\
    match utf with
    | [] => True
    | c :: _ => is_blank c = false
    end.
Proof.
  unfold nativeTranscribe.
  destruct (h =? 0); run.
  { intros [= <- _]. now exists []. }
  destruct (negb _); run.
  { intros [= <- _]. now exists []. }
  destruct (malloc L _); run.
  2:{ intros [= <- _]. now exists []. }
  destruct (store_first _ _); run; [|discriminate].
  destruct (concat_pass _ _ _ _ _ _); run; [|discriminate].
  destruct (skip_blanks _) as [trimmed|] eqn:Hskip; run; [|discriminate].
  destruct (readable _); run; [|discriminate].
  destruct (read_after_free L _); run; [|discriminate].
  intros [= <- _].
  destruct (skip_blanks_stops_at_nonblank _ _ Hskip) as (c & rest & -> & Hc).
  exists (c_str (c :: rest)). split; [reflexivity|].
  split; [apply terminated_c_str|].
  cbn. destruct (Byte.eqb c x00); [exact I | exact Hc].
Qed.

Lemma transcribe_result_is_trimmed_string_witness :
  exists utf : list byte,
    JString (lit "hello world " ++ [x0a]) = JString utf /\
    terminated utf = false /\
    match utf with
    | [] => True
    | c :: _ => is_blank c = false
    end.
Proof.
  apply (transcribe_result_is_trimmed_string demo libc_ok 4096 demo_samples 2
           (empty_world demo [])
           (mk_world (W := demo) three_segments
              (inference_events demo 4096 demo_samples 2
                 ++ [android_log_print demo ANDROID_LOG_INFO
                       "Transcription complete: %d segments" [ArgD 3];
                     android_log_print demo ANDROID_LOG_INFO
                       "Transcription result: %s"
                       [ArgS (lit "hello world " ++ [x0a])]])
              [])).
  vm_compute. reflexivity.
Defined.

(** X3.  When the engine reports success on a non-zero handle, the
    buffer is allocated (text and terminator fitting a [size_t]) and the
    read of the freed buffer for the last log line does not fault, the
    string returned is empty exactly when every character the segments hold
    is a space, a newline or a tab: a transcription of blanks alone comes
    back as the empty string. *)
Theorem transcribe_empty_iff_text_blank
    (W : Whisper) (L : Libc) (h : Z) (samples : list jfloat) (n : Z)
    (w : World W) (junk : nat -> byte) (stale : list byte) :
  h <> 0 ->
  fst (inference W w h samples n) = 0 ->
  malloc L (buffer_size W (ptr_of_jlong h) (snd (inference W w h samples n)))
    = Some junk ->
  Z.of_nat (length (transcript W w h samples n)) + 1 <= SIZE_MAX ->
  read_after_free L (strip_leading (transcript W w h samples n)) = Some stale ->
  exists (utf : list byte) (w' : World W),
    nativeTranscribe W L h samples n w = Returned (JString utf) w' /\
    (utf = [] <-> forallb is_blank (transcript W w h samples n) = true).
Proof.
  intros Hh Hr Hm Hfit Hstale. unfold transcript in *.
  rewrite (transcribe_success W L h samples n w junk Hh Hr Hfit Hm), Hstale.
  do 2 eexists. split; [reflexivity|].
  apply strip_leading_nil_iff.
Qed.

Lemma transcribe_empty_iff_text_blank_witness :
  exists (utf : list byte) (w' : World demo_blank),
    nativeTranscribe demo_blank libc_ok 4096 demo_samples 2
      (empty_world demo_blank []) = Returned (JString utf) w' /\
    (utf = [] <->
     forallb is_blank
       (transcript demo_blank (empty_world demo_blank []) 4096 demo_samples 2) = true).
Proof.
  apply (transcribe_empty_iff_text_blank demo_blank libc_ok 4096 demo_samples 2
           (empty_world demo_blank []) (fun _ => xaa) []).
  - discriminate.
  - reflexivity.
  - reflexivity.
  - vm_compute. discriminate.
  - reflexivity.
Defined.

(** ** The log *)

(** X4.  Whether [nativeTranscribe] returns or faults at the read of the
    freed buffer (text and terminator fitting a [size_t]), it has written
    an error line to the log exactly when the handle is 0, the inference
    status is not 0 or [malloc] fails; and whenever it has written one it
    returns, with the empty string. *)
Theorem transcribe_logs_error_iff_failure
    (W : Whisper) (L : Libc) (h : Z) (samples : list jfloat) (n : Z) (w : World W) :
  Z.of_nat (length (transcript W w h samples n)) + 1 <= SIZE_MAX ->
  (logs_error (new_events w (world_of (nativeTranscribe W L h samples n w))) = true <->
   h = 0 \/
   fst (inference W w h samples n) <> 0 \/
   malloc L (buffer_size W (ptr_of_jlong h) (snd (inference W w h samples n)))
     = None) /\
  (logs_error (new_events w (world_of (nativeTranscribe W L h samples n w))) = true ->
   exists w' : World W,
     nativeTranscribe W L h samples n w = Returned (JString []) w').
Proof.
  intros Hfit.
  destruct (Z.eq_dec h 0) as [->|Hh].
  { rewrite transcribe_null_handle. cbn [world_of].
    rewrite new_events_app. cbn. split.
    - split; [now left | reflexivity].
    - intros _. eexists. reflexivity. }
  destruct (Z.eq_dec (fst (inference W w h samples n)) 0) as [Hr|Hr].
  2:{ rewrite (transcribe_inference_failed W L h samples n w Hh Hr).
      cbn [world_of]. rewrite new_events_app. unfold inference_events. cbn. split.
      - split; [now right; left | reflexivity].
      - intros _. eexists. reflexivity. }
  destruct (malloc L (buffer_size W (ptr_of_jlong h)
              (snd (inference W w h samples n)))) as [junk|] eqn:Hm.
  - unfold transcript in *.
    rewrite (transcribe_success W L h samples n w junk Hh Hr Hfit Hm).
    destruct (read_after_free L _) as [stale|]; cbn [world_of];
      rewrite new_events_app; unfold inference_events; cbn;
      (split; [|discriminate]);
      (split; [discriminate|]);
      intros [H0|[Hne|Hnone]]; try contradiction; discriminate.
  - rewrite (transcribe_out_of_memory W L h samples n w Hh Hr Hm).
    cbn [world_of]. rewrite new_events_app. unfold inference_events. cbn. split.
    + split; [now right; right | reflexivity].
    + intros _. eexists. reflexivity.
Qed.

Lemma transcribe_logs_error_iff_failure_witness :
  ((logs_error
      (new_events (empty_world demo [])
         (world_of (nativeTranscribe demo libc_unmapping 4096 demo_samples 2
                      (empty_world demo [])))) = true <->
    4096 = 0 \/
    fst (inference demo (empty_world demo []) 4096 demo_samples 2) <> 0 \/
    malloc libc_unmapping
      (buffer_size demo (ptr_of_jlong 4096)
         (snd (inference demo (empty_world demo []) 4096 demo_samples 2))) = None) /\
   (logs_error
      (new_events (empty_world demo [])
         (world_of (nativeTranscribe demo libc_unmapping 4096 demo_samples 2
                      (empty_world demo [])))) = true ->
    exists w' : World demo,
      nativeTranscribe demo libc_unmapping 4096 demo_samples 2
        (empty_world demo []) = Returned (JString []) w')) /\
  ((logs_error
      (new_events (empty_world demo_failing [])
         (world_of (nativeTranscribe demo_failing libc_ok 4096 demo_samples 2
                      (empty_world demo_failing [])))) = true <->
    4096 = 0 \/
    fst (inference demo_failing (empty_world demo_failing []) 4096 demo_samples 2) <> 0 \/
    malloc libc_ok
      (buffer_size demo_failing (ptr_of_jlong 4096)
         (snd (inference demo_failing (empty_world demo_failing []) 4096
                 demo_samples 2))) = None) /\
   (logs_error
      (new_events (empty_world demo_failing [])
         (world_of (nativeTranscribe demo_failing libc_ok 4096 demo_samples 2
                      (empty_world demo_failing [])))) = true ->
    exists w' : World demo_failing,
      nativeTranscribe demo_failing libc_ok 4096 demo_samples 2
        (empty_world demo_failing []) = Returned (JString []) w')).
Proof.
  split.
  - apply (transcribe_logs_error_iff_failure demo libc_unmapping 4096 demo_samples 2
             (empty_world demo [])).
    vm_compute. discriminate.
  - apply (transcribe_logs_error_iff_failure demo_failing libc_ok 4096 demo_samples 2
             (empty_world demo_failing [])).
    vm_compute. discriminate.
Defined.

(** ** [nativeInit] *)

(** X5.  Whatever the path and whatever the load yields, [nativeInit]
    calls the engine exactly once: [whisper_init_from_file_with_params] on
    the characters of the path with the engine's default context
    parameters; and it writes an error line to the log exactly when the
    handle it returns is 0. *)
Theorem init_loads_once_and_logs_failure
    (W : Whisper) (path : list byte) (w : World W) :
  is_pointer (fst (load W w path)) ->
  exists (handle : Z) (w' : World W),
    nativeInit W (JString path) w = Returned handle w' /\
    engine_calls (new_events w w') =
      [call_init_from_file W path (whisper_context_default_params W)] /\
    (logs_error (new_events w w') = true <-> handle = 0).
Proof.
  intros Hp. do 2 eexists. split; [apply init_run|].
  rewrite new_events_app, engine_calls_load_events, logs_error_load_events.
  split; [reflexivity|].
  rewrite Z.eqb_eq. symmetry. now apply jlong_of_ptr_zero_iff.
Qed.

Lemma init_loads_once_and_logs_failure_witness :
  exists (handle : Z) (w' : World demo),
    nativeInit demo (JString []) (empty_world demo []) = Returned handle w' /\
    engine_calls (new_events (empty_world demo []) w') =
      [call_init_from_file demo [] (whisper_context_default_params demo)] /\
    (logs_error (new_events (empty_world demo []) w') = true <-> handle = 0).
Proof.
  apply (init_loads_once_and_logs_failure demo [] (empty_world demo [])).
  unfold is_pointer. vm_compute. split; [discriminate | reflexivity].
Defined.

(** ** The size of the concatenation buffer *)

(** X6.  The second pass of [nativeTranscribe], started on a block whose
    first byte is NUL, stays inside the block exactly when the block has
    room for every character of the texts and one terminator: with one byte
    fewer than the first pass computes, [strcat] writes past the end. *)
Theorem concat_pass_in_bounds_iff
    (W : Whisper) (context : Z) (e : engine_state W)
    (count : nat) (i : Z) (rest : list byte) :
  (exists written : list byte,
     concat_pass W context e count i (x00 :: rest) = Some written) <->
  (length (concatenation (texts_from W context e count i)) + 1
     <= length (x00 :: rest))%nat.
Proof.
  cbn [length]. split.
  - intros [written Hw].
    destruct (Nat.le_gt_cases
                (length (concatenation (texts_from W context e count i)))
                (length rest)) as [Hfit|Hsmall]; [lia|].
    pose proof (concat_pass_overflows W context e count i [] rest eq_refl Hsmall)
      as Hover.
    cbn [app] in Hover. rewrite Hover in Hw. discriminate Hw.
  - intros Hfit. eexists.
    apply (concat_pass_exact W context e count i [] rest eq_refl). lia.
Qed.

(** ** How the native methods compose *)

(** X7.  [nativeRelease] on the handle [nativeInit] returned: when the
    load yielded a context, [whisper_free] is called, once, on exactly that
    context, right after the load; when the load failed nothing is freed and
    the engine is as the load left it.  Either way the pair returns with
    nothing more held than before. *)
Theorem init_then_release
    (W : Whisper) (path : list byte) (w : World W) :
  is_pointer (fst (load W w path)) ->
  exists w' : World W,
    bind W (nativeInit W (JString path)) (nativeRelease W) w = Returned tt w' /\
    engine_calls (new_events w w') =
      call_init_from_file W path (whisper_context_default_params W)
        :: (if fst (load W w path) =? 0 then []
            else [call_free W (fst (load W w path))]) /\
    engine w' =
      (if fst (load W w path) =? 0 then snd (load W w path)
       else whisper_free W (fst (load W w path)) (snd (load W w path))) /\
    held w' = held w.
Proof.
  intros Hp. unfold bind. rewrite init_run, release_run.
  pose proof (jlong_of_ptr_zero_iff _ Hp) as Hzero.
  destruct (Z.eqb_spec (fst (load W w path)) 0) as [Hnull|Hlive].
  - rewrite (proj2 Hzero Hnull). cbn [Z.eqb].
    eexists. split; [reflexivity|].
    rewrite new_events_app, engine_calls_load_events. repeat split.
  - destruct (Z.eqb_spec (jlong_of_ptr (fst (load W w path))) 0) as [Hz|_].
    { now apply Hzero in Hz. }
    eexists. split; [reflexivity|].
    unfold released. cbn [engine events held].
    rewrite (ptr_of_jlong_of_ptr _ Hp), <- app_assoc, new_events_app.
    rewrite engine_calls_app, engine_calls_load_events.
    repeat split.
Qed.

Lemma init_then_release_witness :
  exists w' : World demo_high,
    bind demo_high (nativeInit demo_high (JString demo_path))
      (nativeRelease demo_high) (empty_world demo_high [Some (lit "old")]) =
      Returned tt w' /\
    engine_calls (new_events (empty_world demo_high [Some (lit "old")]) w') =
      call_init_from_file demo_high demo_path
        (whisper_context_default_params demo_high)
        :: (if fst (load demo_high (empty_world demo_high [Some (lit "old")])
                      demo_path) =? 0
            then []
            else [call_free demo_high
                    (fst (load demo_high (empty_world demo_high [Some (lit "old")])
                            demo_path))]) /\
    engine w' =
      (if fst (load demo_high (empty_world demo_high [Some (lit "old")]) demo_path) =? 0
       then snd (load demo_high (empty_world demo_high [Some (lit "old")]) demo_path)
       else whisper_free demo_high
              (fst (load demo_high (empty_world demo_high [Some (lit "old")]) demo_path))
              (snd (load demo_high (empty_world demo_high [Some (lit "old")]) demo_path))) /\
    held w' = held (empty_world demo_high [Some (lit "old")]).
Proof.
  apply (init_then_release demo_high demo_path
           (empty_world demo_high [Some (lit "old")])).
  unfold is_pointer. vm_compute. split; [discriminate | reflexivity].
Defined.

(** X8.  [nativeTranscribe] on the handle [nativeInit] returned: when the
    load yielded a context, the timing reset and the one inference call
    receive exactly that context; when the load failed the engine is not
    called again and the empty string is returned. *)
Theorem init_then_transcribe
    (W : Whisper) (L : Libc) (path : list byte)
    (samples : list jfloat) (n : Z) (w : World W) :
  is_pointer (fst (load W w path)) ->
  engine_calls
    (new_events w
       (world_of (bind W (nativeInit W (JString path))
                    (fun handle => nativeTranscribe W L handle samples n) w))) =
    call_init_from_file W path (whisper_context_default_params W)
      :: (if fst (load W w path) =? 0 then []
          else [ call_reset_timings W (fst (load W w path));
                 call_full W (fst (load W w path)) (transcribe_params W n)
                   samples (Z.of_nat (length samples)) ]) /\
  (fst (load W w path) = 0 ->
   exists w' : World W,
     bind W (nativeInit W (JString path))
       (fun handle => nativeTranscribe W L handle samples n) w =
       Returned (JString []) w' /\
     engine w' = snd (load W w path)).
Proof.
  intros Hp. unfold bind. rewrite init_run.
  pose proof (jlong_of_ptr_zero_iff _ Hp) as Hzero.
  destruct (Z.eqb_spec (fst (load W w path)) 0) as [Hnull|Hlive].
  - rewrite (proj2 Hzero Hnull), transcribe_null_handle.
    cbn [world_of engine events held]. split.
    + rewrite <- app_assoc, new_events_app, engine_calls_app,
        engine_calls_load_events. reflexivity.
    + intros _. eexists. split; reflexivity.
  - split; [|contradiction].
    assert (Hh : jlong_of_ptr (fst (load W w path)) <> 0)
      by (intros Hz; now apply Hzero in Hz).
    destruct (transcribe_outcome_events W L _ samples n
                (mk_world (snd (load W w path))
                   (events w ++ load_events W w path) (held w)) Hh)
      as (tail & Hev & Htail & _).
    unfold new_events. rewrite Hev. cbn [events].
    rewrite <- app_assoc, skipn_app, skipn_all, Nat.sub_diag. cbn [skipn app].
    rewrite !engine_calls_app, engine_calls_load_events, Htail.
    unfold inference_events. rewrite (ptr_of_jlong_of_ptr _ Hp). reflexivity.
Qed.

Lemma init_then_transcribe_witness :
  engine_calls
    (new_events (empty_world demo_high [])
       (world_of (bind demo_high (nativeInit demo_high (JString demo_path))
                    (fun handle =>
                       nativeTranscribe demo_high libc_ok handle demo_samples 2)
                    (empty_world demo_high [])))) =
    [ call_init_from_file demo_high demo_path
        (whisper_context_default_params demo_high);
      call_reset_timings demo_high (2 ^ 63 + 4096);
      call_full demo_high (2 ^ 63 + 4096) (transcribe_params demo_high 2)
        demo_samples 3 ] /\
  (exists w' : World demo,
     bind demo (nativeInit demo (JString []))
       (fun handle => nativeTranscribe demo libc_ok handle demo_samples 2)
       (empty_world demo []) = Returned (JString []) w' /\
     engine w' = snd (load demo (empty_world demo []) [])).
Proof.
  split.
  - destruct (init_then_transcribe demo_high libc_ok demo_path demo_samples 2
                (empty_world demo_high [])) as [Hcalls _].
    + unfold is_pointer. vm_compute. split; [discriminate | reflexivity].
    + exact Hcalls.
  - destruct (init_then_transcribe demo libc_ok [] demo_samples 2
                (empty_world demo [])) as [_ Hfailed].
    + unfold is_pointer. vm_compute. split; [discriminate | reflexivity].
    + apply Hfailed. reflexivity.
Defined.

(** X9.  [nativeIsLoaded] on the handle [nativeInit] returned answers
    JNI_TRUE exactly when the load yielded a context, and JNI_FALSE exactly
    when it failed. *)
Theorem init_then_isLoaded
    (W : Whisper) (path : list byte) (w : World W) :
  is_pointer (fst (load W w path)) ->
  exists (b : jboolean) (w' : World W),
    bind W (nativeInit W (JString path)) (nativeIsLoaded W) w = Returned b w' /\
    (b = JNI_TRUE <-> fst (load W w path) <> 0) /\
    (b = JNI_FALSE <-> fst (load W w path) = 0).
Proof.
  intros Hp. unfold bind. rewrite init_run. unfold nativeIsLoaded, ret.
  pose proof (jlong_of_ptr_zero_iff _ Hp) as Hzero.
  do 2 eexists. split; [reflexivity|].
  destruct (Z.eqb_spec (jlong_of_ptr (fst (load W w path))) 0) as [Hz|Hnz];
    cbn [negb]; unfold JNI_TRUE, JNI_FALSE.
  - apply Hzero in Hz. split; split; try discriminate; try reflexivity;
      intros; try contradiction; assumption.
  - assert (Hlive : fst (load W w path) <> 0)
      by (intros Hnull; now apply Hzero in Hnull).
    split; split; try discriminate; try reflexivity; intros; try contradiction;
      assumption.
Qed.

Lemma init_then_isLoaded_witness :
  exists (b : jboolean) (w' : World demo_high),
    bind demo_high (nativeInit demo_high (JString demo_path))
      (nativeIsLoaded demo_high) (empty_world demo_high []) = Returned b w' /\
    (b = JNI_TRUE <-> fst (load demo_high (empty_world demo_high []) demo_path) <> 0) /\
    (b = JNI_FALSE <-> fst (load demo_high (empty_world demo_high []) demo_path) = 0).
Proof.
  apply (init_then_isLoaded demo_high demo_path (empty_world demo_high [])).
  unfold is_pointer. vm_compute. split; [discriminate | reflexivity].
Defined.

(** X10.  The binding keeps no record of released handles.  After
    [nativeRelease] of a non-zero handle a second [nativeRelease] of it
    calls [whisper_free] on the same pointer again, and a
    [nativeTranscribe] on it still resets the timings and runs the inference
    on that pointer. *)
Theorem released_handle_is_still_forwarded
    (W : Whisper) (L : Libc) (h : Z) (samples : list jfloat) (n : Z) (w : World W) :
  h <> 0 ->
  (exists w' : World W,
     bind W (nativeRelease W h) (fun _ => nativeRelease W h) w = Returned tt w' /\
     engine_calls (new_events w w') =
       [call_free W (ptr_of_jlong h); call_free W (ptr_of_jlong h)] /\
     engine w' =
       whisper_free W (ptr_of_jlong h) (whisper_free W (ptr_of_jlong h) (engine w))) /\
  engine_calls
    (new_events w
       (world_of (bind W (nativeRelease W h)
                    (fun _ => nativeTranscribe W L h samples n) w))) =
    [ call_free W (ptr_of_jlong h);
      call_reset_timings W (ptr_of_jlong h);
      call_full W (ptr_of_jlong h) (transcribe_params W n) samples
        (Z.of_nat (length samples)) ].
Proof.
  intros Hh. unfold bind. rewrite release_run.
  destruct (Z.eqb_spec h 0) as [Hz|_]; [contradiction|].
  split.
  - rewrite release_run.
    destruct (Z.eqb_spec h 0) as [Hz|_]; [contradiction|].
    eexists. split; [reflexivity|].
    unfold released. cbn [engine events held].
    rewrite <- app_assoc, new_events_app. repeat split.
  - destruct (transcribe_outcome_events W L h samples n (released W h w) Hh)
      as (tail & Hev & Htail & _).
    unfold new_events. rewrite Hev. unfold released. cbn [events].
    rewrite <- app_assoc, skipn_app, skipn_all, Nat.sub_diag. cbn [skipn app].
    change (call_free W (ptr_of_jlong h)
              :: android_log_print W ANDROID_LOG_INFO "Whisper context released" []
              :: inference_events W h samples n ++ tail)
      with ([call_free W (ptr_of_jlong h);
             android_log_print W ANDROID_LOG_INFO "Whisper context released" []]
              ++ inference_events W h samples n ++ tail).
    rewrite !engine_calls_app, Htail. reflexivity.
Qed.

Lemma released_handle_is_still_forwarded_witness :
  (exists w' : World demo,
     bind demo (nativeRelease demo 4096) (fun _ => nativeRelease demo 4096)
       (empty_world demo three_segments) = Returned tt w' /\
     engine_calls (new_events (empty_world demo three_segments) w') =
       [call_free demo (ptr_of_jlong 4096); call_free demo (ptr_of_jlong 4096)] /\
     engine w' =
       whisper_free demo (ptr_of_jlong 4096)
         (whisper_free demo (ptr_of_jlong 4096)
            (engine (empty_world demo three_segments)))) /\
  engine_calls
    (new_events (empty_world demo three_segments)
       (world_of (bind demo (nativeRelease demo 4096)
                    (fun _ => nativeTranscribe demo libc_ok 4096 demo_samples 2)
                    (empty_world demo three_segments)))) =
    [ call_free demo (ptr_of_jlong 4096);
      call_reset_timings demo (ptr_of_jlong 4096);
      call_full demo (ptr_of_jlong 4096) (transcribe_params demo 2) demo_samples
        (Z.of_nat (length demo_samples)) ].
Proof.
  apply (released_handle_is_still_forwarded demo libc_ok 4096 demo_samples 2
           (empty_world demo three_segments)).
  discriminate.
Defined.

(** ** The first pass, wrap-around included *)

Lemma length_pass_modulo (W : Whisper) (context : Z) (e : engine_state W)
    (count : nat) : forall (i acc : Z),
  acc mod 2 ^ 64 = acc ->
  length_pass W context e count i acc =
  (acc + Z.of_nat (length (concatenation (texts_from W context e count i))))
    mod 2 ^ 64.
Proof.
  induction count as [|count IH]; intros i acc Hacc; cbn [length_pass texts_from].
  - cbn. now rewrite Z.add_0_r.
  - rewrite concatenation_cons, length_app, Nat2Z.inj_add.
    destruct (whisper_full_get_segment_text W context i e) as [text|];
      cbn [text_of].
    + unfold size_t_wrap, strlen.
      rewrite IH by (apply Z.mod_mod; lia).
      rewrite Zplus_mod_idemp_l. f_equal. lia.
    + cbn [length]. rewrite IH by exact Hacc. f_equal.
Qed.

(** X11.  Whatever the segments, the size [nativeTranscribe] asks of
    [malloc] is the number of characters of the texts plus one, reduced
    modulo 2^64, and so always a [size_t]: [total_len] is accumulated in
    [size_t] arithmetic with no overflow check. *)
Theorem buffer_size_is_total_plus_one_modulo
    (W : Whisper) (context : Z) (e : engine_state W) :
  buffer_size W context e =
    (Z.of_nat (length (concatenation (segment_texts W context e))) + 1) mod 2 ^ 64 /\
  0 <= buffer_size W context e <= SIZE_MAX.
Proof.
  unfold buffer_size, segment_texts, size_t_wrap, SIZE_MAX.
  rewrite length_pass_modulo by reflexivity.
  rewrite Z.add_0_l, Zplus_mod_idemp_l. split; [reflexivity|].
  pose proof (Z.mod_pos_bound
                (Z.of_nat (length (concatenation
                   (texts_from W context e
                      (Z.to_nat (whisper_full_n_segments W context e)) 0))) + 1)
                (2 ^ 64)).
  lia.
Qed.

(** ** The read of the freed buffer *)

(** X12.  On the success path (non-zero handle, status 0, buffer
    allocated, text and terminator fitting a [size_t]) [nativeTranscribe]
    builds its result, frees the buffer and only then reads the buffer
    again for its last log line: it returns the stripped concatenation
    exactly when that read does not fault and faults exactly when it does,
    in either case with the buffer and the array elements given back and
    the engine as the inference left it. *)
Theorem transcribe_reads_buffer_after_free
    (W : Whisper) (L : Libc) (h : Z) (samples : list jfloat) (n : Z)
    (w : World W) (junk : nat -> byte) :
  h <> 0 ->
  fst (inference W w h samples n) = 0 ->
  malloc L (buffer_size W (ptr_of_jlong h) (snd (inference W w h samples n)))
    = Some junk ->
  Z.of_nat (length (transcript W w h samples n)) + 1 <= SIZE_MAX ->
  ((exists w' : World W,
      nativeTranscribe W L h samples n w =
        Returned (JString (strip_leading (transcript W w h samples n))) w') <->
   read_after_free L (strip_leading (transcript W w h samples n)) <> None) /\
  ((exists w' : World W, nativeTranscribe W L h samples n w = Crashed w') <->
   read_after_free L (strip_leading (transcript W w h samples n)) = None) /\
  held (world_of (nativeTranscribe W L h samples n w)) = held w /\
  engine (world_of (nativeTranscribe W L h samples n w)) =
    snd (inference W w h samples n).
Proof.
  intros Hh Hr Hm Hfit. unfold transcript in *.
  rewrite (transcribe_success W L h samples n w junk Hh Hr Hfit Hm).
  destruct (read_after_free L _) as [stale|]; cbn [world_of held engine].
  - split; [|split; [|split; reflexivity]].
    + split; [discriminate | intros _; eexists; reflexivity].
    + split; [intros [w' Hrun]; discriminate Hrun | discriminate].
  - split; [|split; [|split; reflexivity]].
    + split; [intros [w' Hrun]; discriminate Hrun | intros Hne; now destruct Hne].
    + split; [reflexivity | intros _; eexists; reflexivity].
Qed.

Lemma transcribe_reads_buffer_after_free_witness :
  ((exists w' : World demo,
      nativeTranscribe demo libc_unmapping 4096 demo_samples 2 (empty_world demo []) =
        Returned
          (JString (strip_leading
             (transcript demo (empty_world demo []) 4096 demo_samples 2))) w') <->
   read_after_free libc_unmapping
     (strip_leading (transcript demo (empty_world demo []) 4096 demo_samples 2))
     <> None) /\
  ((exists w' : World demo,
      nativeTranscribe demo libc_unmapping 4096 demo_samples 2 (empty_world demo []) =
        Crashed w') <->
   read_after_free libc_unmapping
     (strip_leading (transcript demo (empty_world demo []) 4096 demo_samples 2))
     = None) /\
  held (world_of
          (nativeTranscribe demo libc_unmapping 4096 demo_samples 2
             (empty_world demo []))) = held (empty_world demo []) /\
  engine (world_of
            (nativeTranscribe demo libc_unmapping 4096 demo_samples 2
               (empty_world demo []))) =
    snd (inference demo (empty_world demo []) 4096 demo_samples 2).
Proof.
  apply (transcribe_reads_buffer_after_free demo libc_unmapping 4096 demo_samples 2
           (empty_world demo []) (fun _ => xaa)).
  - discriminate.
  - reflexivity.
  - reflexivity.
  - vm_compute. discriminate.
Defined.
